(** * localdocs: ingestion (parse.py) and search (search_pkm.py)

    A shallow embedding of the two command-line programs of the repository
    and the properties of their specification.

    Python code that threads a database connection, a log and the file
    system through its calls is written in a small state-and-exception
    monad; everything the programs obtain from outside (file contents, the
    PDF library, the database server, the text-search engine) is data of
    the world the monad runs in. *)

From Stdlib Require Import ZArith NArith List String Ascii Strings.Byte Bool Lia Arith.
Import ListNotations.

Set Implicit Arguments.

(** ** Python exceptions *)

(** The exception classes that the two programs can meet.  The [psycopg2]
    classes all derive from [psycopg2.Error]; every class derives from
    [Exception]. *)
Inductive exc_class : Type :=
| UnicodeDecodeError
| UnicodeEncodeError
| ValueError
| OSError
| AttributeError
| FitzFileNotFoundError
| FitzFileDataError
| FitzRuntimeError
| InterfaceError
| DatabaseError
| DataError
| OperationalError
| ProgrammingError
| InFailedSqlTransaction.

Record exn : Type := PyExc { exc_type : exc_class; exc_str : string }.

Definition is_psycopg2_Error (e : exn) : bool :=
  match exc_type e with
  | InterfaceError | DatabaseError | DataError | OperationalError
  | ProgrammingError | InFailedSqlTransaction => true
  | _ => false
  end.

(** ** The monad: state passing with exceptions *)

Inductive outcome (A : Type) : Type :=
| Val (a : A)
| Exc (e : exn).
Arguments Val {A} a.
Arguments Exc {A} e.

Definition M (W A : Type) : Type := W -> outcome A * W.

Definition ret {W A : Type} (a : A) : M W A := fun w => (Val a, w).

Definition raise {W A : Type} (e : exn) : M W A := fun w => (Exc e, w).

Definition bind {W A B : Type} (m : M W A) (k : A -> M W B) : M W B :=
  fun w =>
    match m w with
    | (Val a, w') => k a w'
    | (Exc e, w') => (Exc e, w')
    end.

(** [try: m  except Exception as e: h e] *)
Definition try_except {W A : Type} (m : M W A) (h : exn -> M W A) : M W A :=
  fun w =>
    match m w with
    | (Val a, w') => (Val a, w')
    | (Exc e, w') => h e w'
    end.

Definition get {W : Type} : M W W := fun w => (Val w, w).
Definition modify {W : Type} (f : W -> W) : M W unit := fun w => (Val tt, f w).

Declare Scope py_scope.
Delimit Scope py_scope with py.
Notation "x <- m ;; k" := (bind m (fun x => k))
  (at level 61, m at next level, right associativity) : py_scope.
Notation "m ;; k" := (bind m (fun _ => k))
  (at level 61, right associativity) : py_scope.
Open Scope py_scope.

(** What a computation keeps, whether it returns, and what it returns. *)
Definition preserves {W A : Type} (I : W -> Prop) (m : M W A) : Prop :=
  forall w, I w -> I (snd (m w)).

Definition total {W A : Type} (m : M W A) : Prop :=
  forall w, exists a w', m w = (Val a, w').

Definition post {W A : Type} (Q : A -> Prop) (m : M W A) : Prop :=
  forall w a w', m w = (Val a, w') -> Q a.

(** ** Logging *)

Inductive levelname : Type := DEBUG | INFO | WARNING | ERROR.

Definition levelno (l : levelname) : nat :=
  match l with DEBUG => 10 | INFO => 20 | WARNING => 30 | ERROR => 40 end.

(** [logging.basicConfig(level=logging.INFO, ...)] in both programs. *)
Definition root_level : levelname := INFO.

Definition isEnabledFor (l : levelname) : bool := levelno root_level <=? levelno l.

(** ** Text *)

(** A Python [str] read from a document: its code points. *)
Definition text : Type := list N.

Definition in_range (lo hi b : N) : bool := ((lo <=? b) && (b <=? hi))%N.

Definition continuation (b : N) : bool := in_range 0x80 0xBF b.

Definition low6 (b : N) : N := N.land b 0x3F.

(** The range allowed for the second byte of a three-byte sequence:
    no overlong forms after E0, no surrogates after ED. *)
Definition second_of_3 (b0 b1 : N) : bool :=
  if (b0 =? 0xE0)%N then in_range 0xA0 0xBF b1
  else if (b0 =? 0xED)%N then in_range 0x80 0x9F b1
  else continuation b1.

(** The range allowed for the second byte of a four-byte sequence:
    no overlong forms after F0, nothing above U+10FFFF after F4. *)
Definition second_of_4 (b0 b1 : N) : bool :=
  if (b0 =? 0xF0)%N then in_range 0x90 0xBF b1
  else if (b0 =? 0xF4)%N then in_range 0x80 0x8F b1
  else continuation b1.

(** The UTF-8 decoder on byte values, strict: [None] stands for a
    malformed sequence. *)
Fixpoint utf8_code_points (bs : list N) : option text :=
  match bs with
  | [] => Some []
  | b0 :: r0 =>
      if (b0 <? 0x80)%N then option_map (cons b0) (utf8_code_points r0)
      else if in_range 0xC2 0xDF b0 then
        match r0 with
        | b1 :: r1 =>
            if continuation b1
            then option_map
                   (cons (N.lor (N.shiftl (N.land b0 0x1F) 6) (low6 b1)))
                   (utf8_code_points r1)
            else None
        | _ => None
        end
      else if in_range 0xE0 0xEF b0 then
        match r0 with
        | b1 :: b2 :: r2 =>
            if second_of_3 b0 b1 && continuation b2
            then option_map
                   (cons (N.lor (N.shiftl (N.land b0 0x0F) 12)
                            (N.lor (N.shiftl (low6 b1) 6) (low6 b2))))
                   (utf8_code_points r2)
            else None
        | _ => None
        end
      else if in_range 0xF0 0xF4 b0 then
        match r0 with
        | b1 :: b2 :: b3 :: r3 =>
            if second_of_4 b0 b1 && continuation b2 && continuation b3
            then option_map
                   (cons (N.lor (N.shiftl (N.land b0 0x07) 18)
                            (N.lor (N.shiftl (low6 b1) 12)
                               (N.lor (N.shiftl (low6 b2) 6) (low6 b3)))))
                   (utf8_code_points r3)
            else None
        | _ => None
        end
      else None
  end.

(** [bytes.decode('utf-8')] with [errors='strict']: [None] stands for
    [UnicodeDecodeError]. *)
Definition utf8_decode (bs : list byte) : option text :=
  utf8_code_points (map Byte.to_N bs).

(** [bytes.decode('latin-1')]: one code point per byte, the byte's value. *)
Definition latin1_decode (bs : list byte) : text := map Byte.to_N bs.

(** Text mode with the default [newline=None]: a carriage return, with the
    line feed that follows it if there is one, is read as one line feed. *)
Fixpoint universal_newlines (t : text) : text :=
  match t with
  | [] => []
  | c :: r =>
      if (c =? 13)%N then
        match r with
        | c' :: r' => if (c' =? 10)%N then 10%N :: universal_newlines r'
                      else 10%N :: universal_newlines r
        | [] => [10%N]
        end
      else c :: universal_newlines r
  end.

Inductive encoding : Type := utf_8 | latin_1.

(** What [open(path, 'r', encoding=enc).read()] makes of a file's bytes. *)
Definition decode_file (enc : encoding) (bs : list byte) : option text :=
  match enc with
  | utf_8 => option_map universal_newlines (utf8_decode bs)
  | latin_1 => Some (universal_newlines (latin1_decode bs))
  end.

(** ** Paths (posixpath) *)

(** A [string] stands for a Python [str] whose code points are below
    256; [lower] and [strip] are those of Python on such strings. *)
Definition is_upper (c : ascii) : bool :=
  let n := N_of_ascii c in
  in_range 65 90 n || (in_range 192 222 n && negb (n =? 215)%N).

Definition ascii_lower (c : ascii) : ascii :=
  if is_upper c then ascii_of_N (N_of_ascii c + 32) else c.

(** [str.lower()] *)
Fixpoint lower (s : string) : string :=
  match s with
  | EmptyString => EmptyString
  | String c r => String (ascii_lower c) (lower r)
  end.

(** [str.isspace()] on one character. *)
Definition is_space (c : ascii) : bool :=
  let n := N_of_ascii c in
  in_range 9 13 n || in_range 28 32 n || (n =? 133)%N || (n =? 160)%N.

Fixpoint lstrip (s : string) : string :=
  match s with
  | EmptyString => EmptyString
  | String c r => if is_space c then lstrip r else s
  end.

Fixpoint rstrip (s : string) : string :=
  match s with
  | EmptyString => EmptyString
  | String c r =>
      match rstrip r with
      | EmptyString => if is_space c then EmptyString else String c EmptyString
      | r' => String c r'
      end
  end.

(** [str.strip()] *)
Definition strip (s : string) : string := rstrip (lstrip s).

(** [s in l] for a set or list of strings. *)
Definition in_set (s : string) (l : list string) : bool :=
  existsb (String.eqb s) l.

Fixpoint rfind_from (c : ascii) (l : list ascii) (i acc : Z) : Z :=
  match l with
  | [] => acc
  | x :: r => rfind_from c r (i + 1)%Z (if Ascii.eqb x c then i else acc)
  end.

(** [s.rfind(c)] for a one-character [c]: the last index, or -1. *)
Definition rfind (c : ascii) (s : string) : Z :=
  rfind_from c (list_ascii_of_string s) 0%Z (-1)%Z.

(** The [while filenameIndex < dotIndex] loop of [genericpath._splitext]
    over the characters it visits: is one of them not a dot? *)
Fixpoint some_not_dot (l : list ascii) : bool :=
  match l with
  | [] => false
  | c :: r => if negb (Ascii.eqb c ".") then true else some_not_dot r
  end.

(** [os.path.splitext(p)]. *)
Definition splitext (p : string) : string * string :=
  let chars := list_ascii_of_string p in
  let sepIndex := rfind "/" p in
  let dotIndex := rfind "." p in
  if (sepIndex <? dotIndex)%Z then
    let filenameIndex := (sepIndex + 1)%Z in
    let visited :=
      firstn (Z.to_nat (dotIndex - filenameIndex))
             (skipn (Z.to_nat filenameIndex) chars) in
    if some_not_dot visited
    then (string_of_list_ascii (firstn (Z.to_nat dotIndex) chars),
          string_of_list_ascii (skipn (Z.to_nat dotIndex) chars))
    else (p, EmptyString)
  else (p, EmptyString).

Fixpoint endswith_slash (s : string) : bool :=
  match s with
  | EmptyString => false
  | String c EmptyString => Ascii.eqb c "/"
  | String _ r => endswith_slash r
  end.

Definition startswith_slash (s : string) : bool :=
  match s with
  | String c _ => Ascii.eqb c "/"
  | EmptyString => false
  end.

(** [os.path.join(a, b)]. *)
Definition os_path_join (a b : string) : string :=
  if startswith_slash b then b
  else if (String.eqb a "" || endswith_slash a)%bool then (a ++ b)%string
  else (a ++ "/" ++ b)%string.


(** * psycopg2 and the PostgreSQL session behind it *)

Module Psycopg2.

(** ** The adaptation of parameters *)

(** psycopg2 writes the parameters into the statement itself, before it
    sends anything.  It encodes a [str] in the encoding of the session,
    UTF-8, which has no encoding for a surrogate, and then refuses a
    string that holds the character NUL. *)
Definition NUL_refused : exn :=
  PyExc ValueError "A string literal cannot contain NUL (0x00) characters.".

Definition not_encodable : exn :=
  PyExc UnicodeEncodeError "'utf-8' codec can't encode character: surrogates not allowed".

Definition has_NUL (s : string) : bool :=
  existsb (fun c => (N_of_ascii c =? 0)%N) (list_ascii_of_string s).

(** A surrogate; a value above U+10FFFF is no code point of a [str]. *)
Definition no_utf8 (c : N) : bool := in_range 0xD800 0xDFFF c || (0x10FFFF <? c)%N.

(** A [str] parameter whose code points are below 256. *)
Definition adapt_str (s : string) : option exn :=
  if has_NUL s then Some NUL_refused else None.

(** A [str] parameter given by its code points. *)
Definition adapt_text (t : text) : option exn :=
  if existsb no_utf8 t then Some not_encodable
  else if existsb (N.eqb 0) t then Some NUL_refused
  else None.

(** The parameters are adapted in their order: the first refusal. *)
Fixpoint first_refusal (l : list (option exn)) : option exn :=
  match l with
  | [] => None
  | Some e :: _ => Some e
  | None :: rest => first_refusal rest
  end.

(** What the driver makes of the parameters of a statement: [None]
    where it can write them all, else the exception it raises. *)
Class Adapter (S : Type) : Type := adapt : S -> option exn.

(** ** The session *)

Section Session.

(** [T]: the state of the tables, which a rollback restores.  [U]: the
    state that no rollback restores (sequences). *)
Variables T U : Type.

(** The transaction of the session.  psycopg2 opens one with the first
    statement; the server refuses statements in a failed one until it is
    rolled back.  The snapshot is the tables at the start of the
    transaction. *)
Inductive txn_status : Type :=
| Idle
| InTransaction (snapshot : T)
| InFailedTransaction (snapshot : T).

(** What can go wrong on the way to the server or in it, whatever the
    statement: the statement is refused (no space left on the device, a
    key too long for an index, a lock that times out), or the connection
    is lost. *)
Inductive fault : Type :=
| StatementFault (msg : string)
| ConnectionFault (msg : string).

Record connection : Type := mkConnection {
  table : T;
  sequences : U;
  txn : txn_status;
  closed : bool;
  faults : list (option fault)  (* one entry per statement still to be sent *)
}.

Definition set_txn (t : txn_status) (c : connection) : connection :=
  mkConnection (table c) (sequences c) t (closed c) (faults c).
Definition set_closed (b : bool) (c : connection) : connection :=
  mkConnection (table c) (sequences c) (txn c) b (faults c).
Definition set_faults (f : list (option fault)) (c : connection) : connection :=
  mkConnection (table c) (sequences c) (txn c) (closed c) f.

Definition already_closed : exn := PyExc InterfaceError "connection already closed".

(** [conn.cursor()] *)
Definition cursor : M connection unit :=
  fun c => if closed c then (Exc already_closed, c) else (Val tt, c).

(** The tables a rollback returns to. *)
Definition snapshot_of (c : connection) : T :=
  match txn c with
  | Idle => table c
  | InTransaction s => s
  | InFailedTransaction s => s
  end.

(** [cur.execute(sql, params)].  Parameters that the driver refuses
    raise before anything is sent, and the session is as it was.  [run]
    is what the server does with the statement on the tables and
    sequences: its result, or its error, which fails the transaction. *)
Definition execute {S R : Type} {A : Adapter S}
    (run : S -> T -> U -> outcome R * T * U) (s : S) : M connection R :=
  fun c =>
    if closed c then (Exc already_closed, c)
    else
      match adapt s with
      | Some e => (Exc e, c)
      | None =>
          let c0 := set_faults (tl (faults c)) c in
          match hd None (faults c) with
          | Some (ConnectionFault msg) =>
              (Exc (PyExc OperationalError msg), set_closed true c0)
          | Some (StatementFault msg) =>
              (Exc (PyExc DatabaseError msg),
               set_txn (InFailedTransaction (snapshot_of c0)) c0)
          | None =>
              match txn c0 with
              | InFailedTransaction _ =>
                  (Exc (PyExc InFailedSqlTransaction
                          "current transaction is aborted"), c0)
              | _ =>
                  match run s (table c0) (sequences c0) with
                  | (Val r, t', u') =>
                      (Val r,
                       mkConnection t' u' (InTransaction (snapshot_of c0))
                         (closed c0) (faults c0))
                  | (Exc e, _, u') =>
                      (Exc e,
                       mkConnection (table c0) u'
                         (InFailedTransaction (snapshot_of c0))
                         (closed c0) (faults c0))
                  end
              end
          end
      end.

(** [conn.commit()]; a failed transaction can only be ended, which
    undoes it. *)
Definition commit : M connection unit :=
  fun c =>
    if closed c then (Exc already_closed, c)
    else
      match txn c with
      | InFailedTransaction s =>
          (Val tt, mkConnection s (sequences c) Idle (closed c) (faults c))
      | _ => (Val tt, set_txn Idle c)
      end.

(** [conn.rollback()] *)
Definition rollback : M connection unit :=
  fun c =>
    if closed c then (Exc already_closed, c)
    else (Val tt,
          mkConnection (snapshot_of c) (sequences c) Idle (closed c) (faults c)).

(** A property of the tables that holds of the tables as they are and
    of the tables that a rollback would restore. *)
Definition holds_through (Q : T -> Prop) (c : connection) : Prop :=
  Q (table c) /\ Q (snapshot_of c).

(** A session on which no statement can succeed any more, unless it is
    rolled back: the connection is closed or the transaction failed. *)
Definition broken (c : connection) : Prop :=
  closed c = true \/ exists s, txn c = InFailedTransaction s.

End Session.

Arguments Idle {T}.
Arguments cursor {T U}.
Arguments commit {T U}.
Arguments rollback {T U}.

End Psycopg2.

(** * parse.py *)

Module Parse.

Import Psycopg2.

(** ** The record store *)

(** A row of [extracted_files].  The column [processed_at] is filled by
    the server and read by neither program; it is left out. *)
Record row : Type := mkRow {
  id : Z;
  file_path : string;
  file_extension : string;
  content : text
}.

(** The relation [extracted_files]: absent before the first
    [CREATE TABLE]. *)
Definition relation : Type := option (list row).

(** The session of parse.py: the relation, and the sequence behind
    [id SERIAL]. *)
Definition connection : Type := Psycopg2.connection relation Z.

(** The stored records. *)
Definition rows (c : connection) : list row :=
  match table c with Some rs => rs | None => [] end.

(** ** Documents, as the file system and PyMuPDF present them *)

Record pdf_document : Type := mkPdf {
  is_encrypted : bool;
  authenticate : string -> Z;          (* 0: the password is refused *)
  pages : list (outcome text)          (* [load_page(i).get_text("text")] *)
}.

(** Opening and reading a file gives its bytes, or fails with an
    [OSError] (no such file, permission denied, ...). *)
Inductive read_result : Type :=
| Bytes (bs : list byte)
| IOFailure (strerror : string).

Record environment : Type := mkEnv {
  os_walk : string -> list (string * list string); (* (root, files) *)
  read_bytes : string -> read_result;               (* open and read *)
  fitz_open : string -> outcome pdf_document
}.

(** ** Log records *)

Inductive message : Type :=
| Table_checked_created (tbl : string)
| Error_setting_up_table (tbl : string) (e : exn)
| Cannot_insert_no_connection
| Successfully_inserted (file_path : string)
| Skipped_duplicate_file (file_path : string)
| Error_inserting_data (file_path : string) (e : exn)
| UTF8_decoding_failed (file_path : string)
| Could_not_read_TXT_even_with_fallback (file_path : string) (e : exn)
| Error_reading_TXT (file_path : string) (e : exn)
| Skipping_password_protected_PDF (file_path : string)
| PDF_file_not_found (file_path : string)
| Error_processing_PDF (file_path : string) (e : exn)
| Unexpected_error_reading_PDF (file_path : string) (e : exn)
| Cannot_process_no_connection
| Starting_processing_directory (directory_path : string)
| Processing_file (file_path : string)
| Could_not_extract_text (file_path : string)
| Unhandled_error_processing_file (filename root : string) (e : exn)
| Summary_header
| Summary_processed (n : nat)
| Summary_skipped (n : nat)
| Summary_duplicate (n : nat)
| Summary_errors (n : nat)
| Summary_footer.

Definition log_record : Type := (levelname * message)%type.

(** ** The world *)

(** The file system may change while the program runs: [env_at t] is
    what the [t]-th access finds. *)
Record world : Type := mkWorld {
  db : connection;
  log : list log_record;
  accesses : nat;
  env_at : nat -> environment
}.

Definition set_db (c : connection) (w : world) : world :=
  mkWorld c (log w) (accesses w) (env_at w).

Definition logging_log (l : levelname) (m : message) : M world unit :=
  fun w =>
    (Val tt,
     if isEnabledFor l
     then mkWorld (db w) (log w ++ [(l, m)]) (accesses w) (env_at w)
     else w).

Definition logging_debug := logging_log DEBUG.
Definition logging_info := logging_log INFO.
Definition logging_warning := logging_log WARNING.
Definition logging_error := logging_log ERROR.

(** One access to the file system: the environment of the moment. *)
Definition access : M world environment :=
  fun w =>
    (Val (env_at w (accesses w)),
     mkWorld (db w) (log w) (S (accesses w)) (env_at w)).

(** ** The statements of parse.py *)

Inductive statement : Type :=
| CreateTableIfNotExists
| InsertOnConflictDoNothing (file_path extension : string) (content : text).

Definition path_stored (p : string) (rs : list row) : bool :=
  existsb (fun r => String.eqb (file_path r) p) rs.

(** The three parameters of the [INSERT] are adapted in their order;
    [CREATE TABLE] has none. *)
#[export] Instance adapt_statement : Adapter statement :=
  fun s =>
    match s with
    | CreateTableIfNotExists => None
    | InsertOnConflictDoNothing p ext txt =>
        first_refusal [adapt_str p; adapt_str ext; adapt_text txt]
    end.

(** What a column of type [VARCHAR(n)] makes of a value assigned to it:
    the value where it has at most [n] characters, its first [n]
    characters where those in excess are all spaces, and an error
    otherwise. *)
Definition varchar (n : nat) (s : string) : option string :=
  let chars := list_ascii_of_string s in
  if forallb (Ascii.eqb " ") (skipn n chars)
  then Some (string_of_list_ascii (firstn n chars))
  else None.

(** What the server does with a statement: the row count it reports
    (-1 where there is none), the relation and the sequence afterwards. *)
Definition run_statement (s : statement) (t : relation) (next_id : Z)
  : outcome Z * relation * Z :=
  match s with
  | CreateTableIfNotExists =>
      match t with
      | Some _ => (Val (-1)%Z, t, next_id)
      | None => (Val (-1)%Z, Some [], next_id)
      end
  | InsertOnConflictDoNothing p ext txt =>
      match t with
      | None =>
          (Exc (PyExc ProgrammingError "relation does not exist"), t, next_id)
      | Some rs =>
          (* [file_extension VARCHAR(10)]: the constant is coerced when
             the statement is planned, before a row is made *)
          match varchar 10 ext with
          | None =>
              (Exc (PyExc DataError
                      "value too long for type character varying(10)"),
               t, next_id)
          | Some ext' =>
              (* the default of [id] is taken from the sequence before
                 the conflict on [file_path] is seen *)
              if path_stored p rs then (Val 0%Z, t, (next_id + 1)%Z)
              else (Val 1%Z, Some (rs ++ [mkRow next_id p ext' txt]),
                    (next_id + 1)%Z)
          end
      end
  end.

(** An operation of the session, in the world. *)
Definition on_db {A : Type} (m : M connection A) : M world A :=
  fun w => let (r, c) := m (db w) in (r, set_db c w).

(** ** The program *)

Definition SUPPORTED_EXTENSIONS : list string := [".txt"; ".pdf"; ".md"]%string.

Definition TABLE_NAME : string := "extracted_files".

(** The handle [conn] a function receives: [None], or the one
    connection of the world. *)
Inductive conn_handle : Type := the_connection.

Definition setup_database (conn : option conn_handle) : M world bool :=
  match conn with
  | None => ret false
  | Some _ =>
      try_except
        (on_db cursor ;;
         _ <- on_db (execute run_statement CreateTableIfNotExists) ;;
         on_db commit ;;
         logging_info (Table_checked_created TABLE_NAME) ;;
         ret true)
        (fun e =>
           logging_error (Error_setting_up_table TABLE_NAME e) ;;
           on_db rollback ;;
           ret false)
  end.

Definition insert_file_data (conn : option conn_handle)
    (file_path extension : string) (content : text) : M world bool :=
  match conn with
  | None => logging_error Cannot_insert_no_connection ;; ret false
  | Some _ =>
      try_except
        (on_db cursor ;;
         rowcount <- on_db (execute run_statement
                              (InsertOnConflictDoNothing file_path extension content)) ;;
         on_db commit ;;
         if (0 <? rowcount)%Z
         then logging_debug (Successfully_inserted file_path) ;; ret true
         else logging_info (Skipped_duplicate_file file_path) ;; ret false)
        (fun e =>
           logging_error (Error_inserting_data file_path e) ;;
           on_db rollback ;;
           ret false)
  end.

(** [with open(file_path, 'r', encoding=enc) as f: return f.read()] *)
Definition read_text (enc : encoding) (file_path : string) : M world text :=
  env <- access ;;
  match read_bytes env file_path with
  | IOFailure strerror => raise (PyExc OSError strerror)
  | Bytes bs =>
      match decode_file enc bs with
      | Some t => ret t
      | None => raise (PyExc UnicodeDecodeError "codec can't decode bytes")
      end
  end.

Definition extract_text_from_txt (file_path : string) : M world (option text) :=
  try_except
    (t <- read_text utf_8 file_path ;; ret (Some t))
    (fun e =>
       match exc_type e with
       | UnicodeDecodeError =>
           logging_warning (UTF8_decoding_failed file_path) ;;
           try_except
             (t <- read_text latin_1 file_path ;; ret (Some t))
             (fun e' =>
                logging_error (Could_not_read_TXT_even_with_fallback file_path e') ;;
                ret None)
       | _ =>
           logging_error (Error_reading_TXT file_path e) ;;
           ret None
       end).

Definition extract_text_from_md (file_path : string) : M world (option text) :=
  extract_text_from_txt file_path.

(** [doc.load_page(page_num).get_text("text")] *)
Definition page_text (doc : pdf_document) (page_num : nat) : M world text :=
  match nth_error (pages doc) page_num with
  | Some (Val t) => ret t
  | Some (Exc e) => raise e
  | None => raise (PyExc FitzRuntimeError "page not in document")
  end.

(** [for page_num in range(len(doc)): text += ...] over the page numbers
    still to come. *)
Fixpoint read_pages (doc : pdf_document) (page_nums : list nat) (acc : text)
  : M world text :=
  match page_nums with
  | [] => ret acc
  | page_num :: rest =>
      t <- page_text doc page_num ;;
      read_pages doc rest (acc ++ t)
  end.

Definition extract_text_from_pdf (file_path : string) : M world (option text) :=
  try_except
    (env <- access ;;
     match fitz_open env file_path with
     | Exc e => raise e
     | Val doc =>
         if is_encrypted doc && (authenticate doc "" =? 0)%Z
         then logging_warning (Skipping_password_protected_PDF file_path) ;;
              ret None
         else
           t <- read_pages doc (seq 0 (List.length (pages doc))) [] ;;
           ret (Some t)
     end)
    (fun e =>
       match exc_type e with
       | FitzFileNotFoundError =>
           logging_error (PDF_file_not_found file_path) ;; ret None
       | FitzFileDataError =>
           logging_error (Error_processing_PDF file_path e) ;; ret None
       | _ =>
           logging_error (Unexpected_error_reading_PDF file_path e) ;; ret None
       end).

Record counters : Type := mkCounters {
  processed_count : nat;
  skipped_count : nat;
  error_count : nat;
  duplicate_count : nat
}.

(** The body of the inner loop of [process_directory], one file. *)
Definition process_file (conn : option conn_handle) (root filename : string)
    (n : counters) : M world counters :=
  try_except
    (let file_path := os_path_join root filename in
     let file_ext := lower (snd (splitext filename)) in
     if in_set file_ext SUPPORTED_EXTENSIONS then
       logging_info (Processing_file file_path) ;;
       content <-
         (if String.eqb file_ext ".txt" then extract_text_from_txt file_path
          else if String.eqb file_ext ".md" then extract_text_from_md file_path
          else if String.eqb file_ext ".pdf" then extract_text_from_pdf file_path
          else ret None) ;;
       match content with
       | Some t =>
           inserted <- insert_file_data conn file_path file_ext t ;;
           if inserted
           then ret (mkCounters (processed_count n + 1) (skipped_count n)
                       (error_count n) (duplicate_count n))
           else ret (mkCounters (processed_count n) (skipped_count n)
                       (error_count n) (duplicate_count n + 1))
       | None =>
           logging_warning (Could_not_extract_text file_path) ;;
           ret (mkCounters (processed_count n) (skipped_count n)
                  (error_count n + 1) (duplicate_count n))
       end
     else
       ret (mkCounters (processed_count n) (skipped_count n + 1)
              (error_count n) (duplicate_count n)))
    (fun e =>
       logging_error (Unhandled_error_processing_file filename root e) ;;
       ret (mkCounters (processed_count n) (skipped_count n)
              (error_count n + 1) (duplicate_count n))).

(** [for filename in files: ...] *)
Fixpoint process_files (conn : option conn_handle) (root : string)
    (files : list string) (n : counters) : M world counters :=
  match files with
  | [] => ret n
  | filename :: rest =>
      n' <- process_file conn root filename n ;;
      process_files conn root rest n'
  end.

(** [for root, _, files in os.walk(directory_path): ...] *)
Fixpoint process_walk (conn : option conn_handle)
    (walk : list (string * list string)) (n : counters) : M world counters :=
  match walk with
  | [] => ret n
  | (root, files) :: rest =>
      n' <- process_files conn root files n ;;
      process_walk conn rest n'
  end.

(** [process_directory] returns nothing; the model returns the four
    counters that its summary logs, or [None] where it returns at once. *)
Definition process_directory (directory_path : string)
    (conn : option conn_handle) : M world (option counters) :=
  match conn with
  | None => logging_error Cannot_process_no_connection ;; ret None
  | Some _ =>
      logging_info (Starting_processing_directory directory_path) ;;
      env <- access ;;
      n <- process_walk conn (os_walk env directory_path)
             (mkCounters 0 0 0 0) ;;
      logging_info Summary_header ;;
      logging_info (Summary_processed (processed_count n)) ;;
      logging_info (Summary_skipped (skipped_count n)) ;;
      logging_info (Summary_duplicate (duplicate_count n)) ;;
      logging_info (Summary_errors (error_count n)) ;;
      logging_info Summary_footer ;;
      ret (Some n)
  end.

(** ** The vocabulary of the properties *)

(** The paths of the stored records. *)
Definition paths (t : relation) : list string :=
  match t with Some rs => map file_path rs | None => [] end.

(** No two records of the relation have the same path, and none of the
    relation that a rollback would restore. *)
Definition unique_paths (c : connection) : Prop :=
  NoDup (paths (table c)) /\ NoDup (paths (snapshot_of c)).

(** The number of stored records whose [file_path] is [P]. *)
Definition records_with_path (P : string) (c : connection) : nat :=
  List.length (filter (fun r => String.eqb (file_path r) P) (rows c)).

(** The calls by which the program writes to the store. *)
Inductive call : Type :=
| Setup_database
| Insert_file_data (file_path extension : string) (content : text)
| Process_directory (directory_path : string).

Definition run_call (k : call) : M world unit :=
  match k with
  | Setup_database => _ <- setup_database (Some the_connection) ;; ret tt
  | Insert_file_data p ext t =>
      _ <- insert_file_data (Some the_connection) p ext t ;; ret tt
  | Process_directory d =>
      _ <- process_directory d (Some the_connection) ;; ret tt
  end.

(** The world after a sequence of calls, each from where the one before
    left it, whether it returned or raised. *)
Fixpoint run_calls (ks : list call) (w : world) : world :=
  match ks with
  | [] => w
  | k :: rest => run_calls rest (snd (run_call k w))
  end.

(** The file system does not change while the program runs. *)
Definition static (w : world) (e : environment) : Prop :=
  forall t, env_at w t = e.

(** A connection between two calls on which no statement will fail:
    open, no transaction, the table created. *)
Definition settled (rs : list row) (next_id : Z) : connection :=
  mkConnection (Some rs) next_id Idle false [].

(** What the plain-text extraction gives for a path, from what the first
    and the second access to the file find. *)
Definition txt_value (e1 e2 : environment) (p : string) : option text :=
  match read_bytes e1 p with
  | IOFailure _ => None
  | Bytes bs =>
      match decode_file utf_8 bs with
      | Some t => Some t
      | None =>
          match read_bytes e2 p with
          | Bytes bs' => decode_file latin_1 bs'
          | IOFailure _ => None
          end
      end
  end.

(** The records that the plain-text extraction adds to the log. *)
Definition txt_log (e1 e2 : environment) (p : string) : list log_record :=
  match read_bytes e1 p with
  | IOFailure s => [(ERROR, Error_reading_TXT p (PyExc OSError s))]
  | Bytes bs =>
      match decode_file utf_8 bs with
      | Some _ => []
      | None =>
          (WARNING, UTF8_decoding_failed p)
          :: match read_bytes e2 p with
             | Bytes _ => []
             | IOFailure s =>
                 [(ERROR, Could_not_read_TXT_even_with_fallback p
                            (PyExc OSError s))]
             end
      end
  end.

(** The number of times the plain-text extraction opens the file. *)
Definition attempts_made (w : world) (p : string) : nat :=
  accesses (snd (extract_text_from_txt p w)) - accesses w.

(** The sentinel as the specification has it: returned only after both
    attempts, the one in UTF-8 and the one in latin-1, were made and
    failed. *)
Definition sentinel_only_if_both_attempts_fail (w : world) (p : string)
  : Prop :=
  fst (extract_text_from_txt p w) = Val None -> attempts_made w p = 2.

(** The text of the pages in page order, if every page gives its text. *)
Fixpoint pages_text (ps : list (outcome text)) : option text :=
  match ps with
  | [] => Some []
  | Val t :: rest => option_map (app t) (pages_text rest)
  | Exc _ :: _ => None
  end.

(** What the PDF extraction gives for a path. *)
Definition pdf_value (e : environment) (p : string) : option text :=
  match fitz_open e p with
  | Exc _ => None
  | Val doc =>
      if is_encrypted doc && (authenticate doc "" =? 0)%Z then None
      else pages_text (pages doc)
  end.

Definition file_ext_of (filename : string) : string :=
  lower (snd (splitext filename)).

Definition extraction (e : environment) (file_ext file_path : string)
  : option text :=
  if String.eqb file_ext ".txt" then txt_value e e file_path
  else if String.eqb file_ext ".md" then txt_value e e file_path
  else if String.eqb file_ext ".pdf" then pdf_value e file_path
  else None.

(** What becomes of a file of the walk in a static file system. *)
Inductive verdict : Type :=
| Unsupported
| Failed
| Extracted (t : text).

Definition verdict_of (e : environment) (f : string * string) : verdict :=
  let file_ext := file_ext_of (snd f) in
  if in_set file_ext SUPPORTED_EXTENSIONS then
    match extraction e file_ext (os_path_join (fst f) (snd f)) with
    | Some t => Extracted t
    | None => Failed
    end
  else Unsupported.

Definition is_extracted (e : environment) (f : string * string) : bool :=
  match verdict_of e f with Extracted _ => true | _ => false end.
Definition is_failed (e : environment) (f : string * string) : bool :=
  match verdict_of e f with Failed => true | _ => false end.
Definition is_unsupported (e : environment) (f : string * string) : bool :=
  match verdict_of e f with Unsupported => true | _ => false end.

Definition zero : counters := mkCounters 0 0 0 0.

Definition bump_processed (n : counters) : counters :=
  mkCounters (processed_count n + 1) (skipped_count n) (error_count n)
    (duplicate_count n).
Definition bump_skipped (n : counters) : counters :=
  mkCounters (processed_count n) (skipped_count n + 1) (error_count n)
    (duplicate_count n).
Definition bump_error (n : counters) : counters :=
  mkCounters (processed_count n) (skipped_count n) (error_count n + 1)
    (duplicate_count n).
Definition bump_duplicate (n : counters) : counters :=
  mkCounters (processed_count n) (skipped_count n) (error_count n)
    (duplicate_count n + 1).

(** The driver can write the three parameters of an insertion. *)
Definition adaptable (p ext : string) (t : text) : bool :=
  match adapt (InsertOnConflictDoNothing p ext t) with
  | None => true
  | Some _ => false
  end.

(** An insertion on a settled connection: whether a record is added,
    the records and the sequence afterwards.  Nothing is sent where the
    driver refuses a parameter. *)
Definition insert_step (rs : list row) (sq : Z) (p ext : string) (t : text)
  : bool * list row * Z :=
  if adaptable p ext t then
    match varchar 10 ext with
    | Some ext' =>
        if path_stored p rs then (false, rs, (sq + 1)%Z)
        else (true, (rs ++ [mkRow sq p ext' t])%list, (sq + 1)%Z)
    | None => (false, rs, sq)
    end
  else (false, rs, sq).

(** One file on a settled connection in a static file system: the
    records, the sequence and the counters afterwards. *)
Definition file_step (e : environment) (st : list row * Z * counters)
    (f : string * string) : list row * Z * counters :=
  let '(rs, sq, n) := st in
  match verdict_of e f with
  | Unsupported => (rs, sq, bump_skipped n)
  | Failed => (rs, sq, bump_error n)
  | Extracted t =>
      let '(inserted, rs', sq') :=
        insert_step rs sq (os_path_join (fst f) (snd f)) (file_ext_of (snd f))
          t in
      (rs', sq', if inserted : bool then bump_processed n else bump_duplicate n)
  end.

(** The record that an insertion of a stored path adds to the log: the
    duplicate, or the error of a parameter that the driver or the column
    [file_extension] refuses. *)
Definition duplicate_record (p ext : string) (t : text) : log_record :=
  match adapt (InsertOnConflictDoNothing p ext t), varchar 10 ext with
  | Some e, _ => (ERROR, Error_inserting_data p e)
  | None, None =>
      (ERROR, Error_inserting_data p
                (PyExc DataError
                   "value too long for type character varying(10)"))
  | None, Some _ => (INFO, Skipped_duplicate_file p)
  end.

(** The insertion of a stored path as the specification has it: what
    it reports is the duplicate, not an error. *)
Definition reports_the_duplicate (w : world) (p ext : string) (t : text)
  : Prop :=
  path_stored p (rows (db w)) = true ->
  log (snd (insert_file_data (Some the_connection) p ext t w))
  = (log w ++ [(INFO, Skipped_duplicate_file p)])%list.

(** The file gives its text, and the driver can write the parameters of
    its insertion. *)
Definition is_storable (e : environment) (f : string * string) : bool :=
  match verdict_of e f with
  | Extracted t =>
      adaptable (os_path_join (fst f) (snd f)) (file_ext_of (snd f)) t
  | _ => false
  end.

Definition run_files (e : environment) (st : list row * Z * counters)
    (fs : list (string * string)) : list row * Z * counters :=
  fold_left (file_step e) fs st.

(** The (root, filename) pairs of a walk, in the order of the loops. *)
Definition walk_files (walk : list (string * list string))
  : list (string * string) :=
  flat_map (fun rf => map (pair (fst rf)) (snd rf)) walk.

(** The idempotence of the specification at a world and a directory:
    of two runs in a row, the second leaves the records of the first,
    inserts nothing, and counts as duplicates what the first inserted. *)
Definition second_run_repeats_first (w : world) (directory_path : string)
  : Prop :=
  forall n1 w1 n2 w2,
    process_directory directory_path (Some the_connection) w
    = (Val (Some n1), w1) ->
    process_directory directory_path (Some the_connection) w1
    = (Val (Some n2), w2) ->
    rows (db w2) = rows (db w1)
    /\ duplicate_count n2 = processed_count n1
    /\ processed_count n2 = 0.

(** ** Worlds to run the program in *)

Definition ascii_bytes (s : string) : list byte :=
  map byte_of_ascii (list_ascii_of_string s).

(** The directory of the specification's scenario: [a.txt], the
    encrypted [b.pdf], [c.md]. *)
Definition scenario : environment :=
  mkEnv
    (fun d => if String.eqb d "docs"
              then [("docs"%string, ["a.txt"; "b.pdf"; "c.md"]%string)] else [])
    (fun p => if String.eqb p "docs/a.txt" then Bytes (ascii_bytes "hello world")
              else if String.eqb p "docs/c.md" then Bytes (ascii_bytes "hello md")
              else IOFailure "No such file or directory")
    (fun p => if String.eqb p "docs/b.pdf"
              then Val (mkPdf true (fun _ => 0%Z) [])
              else Exc (PyExc FitzFileNotFoundError "no such file")).

(** A directory with one note in latin-1, "café", and a PDF of two
    pages. *)
Definition cafe : environment :=
  mkEnv
    (fun d => if String.eqb d "notes"
              then [("notes"%string, ["cafe.txt"; "two.pdf"]%string)] else [])
    (fun p => if String.eqb p "notes/cafe.txt"
              then Bytes [x63; x61; x66; xe9]
              else IOFailure "No such file or directory")
    (fun p => if String.eqb p "notes/two.pdf"
              then Val (mkPdf false (fun _ => 0%Z)
                          [Val [0x6f; 0x6e; 0x65]%N; Val [0x74; 0x77; 0x6f]%N])
              else Exc (PyExc FitzFileNotFoundError "no such file")).

Definition world_of (e : environment) (c : connection) : world :=
  mkWorld c [] 0 (fun _ => e).

(** The scenario on a store just set up. *)
Definition first_run : world := world_of scenario (settled [] 1).

(** The scenario when the server refuses the first statement. *)
Definition refused_insert : world :=
  world_of scenario
    (mkConnection (Some []) 1%Z Idle false
       [Some (StatementFault "could not extend file: No space left on device")]).

(** The scenario on a store that already holds [a.txt] and [c.md]. *)
Definition later_run : world :=
  world_of scenario
    (settled [mkRow 1 "docs/a.txt" ".txt" (latin1_decode (ascii_bytes "hello world"));
              mkRow 2 "docs/c.md" ".md" (latin1_decode (ascii_bytes "hello md"))]
             3).

(** ** More vocabulary: the records over time, the counters, the script *)

Definition rows_of (t : relation) : list row :=
  match t with Some rs => rs | None => [] end.

(** The records [rs0], in their order, and after them records that all
    have the property [P]. *)
Definition extends_with (P : row -> Prop) (rs0 : list row) (t : relation)
  : Prop :=
  exists added,
    rows_of t = (rs0 ++ added)%list /\ forall r, In r added -> P r.

(** A record that [process_directory] makes of one of the files [fs]
    of a walk, given as (root, filename) pairs: its path is that of the
    file, its extension the lower-cased extension of the file name, one
    of the supported ones. *)
Definition made_of_a_file_of (fs : list (string * string)) (r : row) : Prop :=
  exists root filename,
    In (root, filename) fs
    /\ file_path r = os_path_join root filename
    /\ file_extension r = lower (snd (splitext filename))
    /\ in_set (file_extension r) SUPPORTED_EXTENSIONS = true.

(** The files that a summary accounts for. *)
Definition tally (n : counters) : nat :=
  processed_count n + skipped_count n + error_count n + duplicate_count n.

(** What the script finds when it starts: whether its argument is a
    directory, whether the five settings are there, and what
    [psycopg2.connect] gives. *)
Record startup : Type := mkStartup {
  isdir : bool;
  configured : bool;
  connect : outcome unit
}.

(** The log records of [get_db_connection] and of the script. *)
Inductive startup_message : Type :=
| Successfully_connected
| Database_connection_failed (e : exn)
| Unexpected_error_during_connection (e : exn)
| Not_a_valid_directory (directory : string)
| Database_configuration_missing
| Failed_to_set_up_table_Aborting
| Unexpected_error_during_script (e : exn)
| Database_connection_closed.

Inductive script_message : Type :=
| Startup (m : startup_message)
| Ingestion (m : message).

(** The world of the script: that of the ingestion, with a log that
    holds the records of both in the order they are written. *)
Record script_world : Type := mkScriptWorld {
  s_db : connection;
  s_log : list (levelname * script_message);
  s_accesses : nat;
  s_env_at : nat -> environment
}.

(** A function of the ingestion, called by the script: it runs on the
    connection and the file system of the script, and its log records
    follow those already written. *)
Definition call_ingestion {A : Type} (m : M world A) : M script_world A :=
  fun sw =>
    let (r, w') := m (mkWorld (s_db sw) [] (s_accesses sw) (s_env_at sw)) in
    (r, mkScriptWorld (db w')
          (s_log sw ++ map (fun lm => (fst lm, Ingestion (snd lm))) (log w'))
          (accesses w') (env_at w')).

Definition script_log (l : levelname) (m : startup_message)
  : M script_world unit :=
  fun sw =>
    (Val tt,
     if isEnabledFor l
     then mkScriptWorld (s_db sw) (s_log sw ++ [(l, Startup m)])
            (s_accesses sw) (s_env_at sw)
     else sw).

Definition get_db_connection (s : startup) : M script_world (option conn_handle) :=
  try_except
    (match connect s with
     | Exc e => raise e
     | Val _ =>
         script_log INFO Successfully_connected ;;
         ret (Some the_connection)
     end)
    (fun e =>
       match exc_type e with
       | OperationalError =>
           script_log ERROR (Database_connection_failed e) ;; ret None
       | _ =>
           script_log ERROR (Unexpected_error_during_connection e) ;; ret None
       end).

(** [db_conn.close()] *)
Definition close : M script_world unit :=
  fun sw =>
    (Val tt,
     mkScriptWorld (set_closed true (s_db sw)) (s_log sw) (s_accesses sw)
       (s_env_at sw)).

(** The script; the value is the exit status. *)
Definition main (directory : string) (s : startup) : M script_world Z :=
  if negb (isdir s) then
    script_log ERROR (Not_a_valid_directory directory) ;; ret 1%Z
  else if negb (configured s) then
    script_log ERROR Database_configuration_missing ;; ret 1%Z
  else
    (* [finally] runs with the value of [db_conn] at that point: [None]
       until [get_db_connection] has returned *)
    db_conn <-
      try_except
        (db_conn <- get_db_connection s ;;
         try_except
           (match db_conn with
            | Some _ =>
                ok <- call_ingestion (setup_database db_conn) ;;
                if ok : bool
                then _ <- call_ingestion (process_directory directory db_conn) ;;
                     ret tt
                else script_log ERROR Failed_to_set_up_table_Aborting
            | None => ret tt
            end)
           (fun e => script_log ERROR (Unexpected_error_during_script e)) ;;
         ret db_conn)
        (fun e =>
           script_log ERROR (Unexpected_error_during_script e) ;; ret None) ;;
    match db_conn with
    | Some _ => close ;; script_log INFO Database_connection_closed ;; ret 0%Z
    | None => ret 0%Z
    end.

(** A start at which the script reaches the database. *)
Definition good_start : startup := mkStartup true true (Val tt).

Definition script_world_of (w : world) : script_world :=
  mkScriptWorld (db w) [] (accesses w) (env_at w).


End Parse.

(** * search_pkm.py *)

Module SearchPkm.

Import Psycopg2.

(** ** The text-search engine of the server *)

(** A row of [extracted_files] as the search reads it: the columns that
    parse.py writes, and the three searchable representations that the
    setup script adds, each of which may be NULL. *)
Record document (V : Type) : Type := mkDocument {
  file_path : string;
  file_extension : string;
  content : text;
  content_tsv_en : option V;
  content_tsv_ru : option V;
  content_tsv_simple : option V
}.

(** The functions of PostgreSQL's text search that the statements call,
    and what the server makes of the setup script, a file that is not
    part of the program. *)
Class engine : Type := {
  tsvector : Type;
  tsquery : Type;
  score : Type;                              (* float4 *)
  score_zero : score;
  score_add : score -> score -> score;
  score_leb : score -> score -> bool;
  (* [None]: the text search configuration does not exist *)
  plainto_tsquery : string -> string -> option tsquery;
  ts_match : tsquery -> tsvector -> bool;    (* [query @@ vector] *)
  ts_rank_cd : tsvector -> tsquery -> score;
  ts_headline : string -> text -> tsquery -> string -> text;
  run_script : string -> list (document tsvector)
               -> outcome (list (document tsvector))
}.

Section WithEngine.

Context {E : engine}.

Definition doc : Type := document tsvector.

(** The session of search_pkm.py, on a database in which the table
    [extracted_files] has its three searchable columns; the sequences
    play no part. *)
Definition connection : Type := Psycopg2.connection (list doc) unit.

(** ** Constants *)

Definition SUPPORTED_EXTENSIONS : list string := [".pdf"; ".md"; ".txt"]%string.
Definition TABLE_NAME : string := "extracted_files".
Definition SQL_SETUP_FILE : string := "setup_fts_enhanced.sql".
Definition DEFAULT_SEARCH_LIMIT : Z := 10.
Definition HEADLINE_OPTIONS : string :=
  "StartSel=***, StopSel=***, MaxFragments=1, MaxWords=35, MinWords=15, HighlightAll=TRUE".
Definition FTS_CONFIG_EN : string := "public.fts_english_unaccent".
Definition FTS_CONFIG_RU : string := "public.fts_russian_unaccent".
Definition FTS_CONFIG_SIMPLE : string := "pg_catalog.simple".

(** ** Statements and their parameters *)

(** A value bound to a [%s] of a statement. *)
Inductive param : Type :=
| PStr (s : string)
| PTuple (l : list string)
| PInt (n : Z).

(** The two statement texts of [search_documents]: the one of the three
    single-language branches, which differ in the column they name, and
    the one of the [both] branch. *)
Inductive query_text : Type :=
| SelectOneLanguage (tsvector_col : string)
| SelectBoth.

Inductive statement : Type :=
| SetClientMinMessages
| Script (sql_script : string)
| Select (query : query_text) (params : list param).

(** The parameters are adapted in their order; a tuple, element by
    element; an [int] is always written. *)
Definition adapt_param (p : param) : option exn :=
  match p with
  | PStr s => adapt_str s
  | PTuple l => first_refusal (map adapt_str l)
  | PInt _ => None
  end.

#[local] Instance adapt_statement : Adapter statement :=
  fun s =>
    match s with
    | Select _ params => first_refusal (map adapt_param params)
    | _ => None
    end.

(** A row of a result, [dict(row)]. *)
Record result : Type := mkResult {
  res_file_path : string;
  rank : score;
  headline : text
}.

(** ** What the server does with a [SELECT] *)

(** The column an identifier names; [None] where there is no such
    column of type tsvector. *)
Definition column (name : string) : option (doc -> option tsvector) :=
  if String.eqb name "content_tsv_en" then Some (@content_tsv_en tsvector)
  else if String.eqb name "content_tsv_ru" then Some (@content_tsv_ru tsvector)
  else if String.eqb name "content_tsv_simple"
       then Some (@content_tsv_simple tsvector)
  else None.

(** SQL's three-valued logic; [None] is NULL. *)
Definition sql_match (q : tsquery) (v : option tsvector) : option bool :=
  option_map (ts_match q) v.

Definition sql_or (a b : option bool) : option bool :=
  match a, b with
  | Some true, _ | _, Some true => Some true
  | Some false, Some false => Some false
  | _, _ => None
  end.

Definition sql_and (a b : option bool) : option bool :=
  match a, b with
  | Some false, _ | _, Some false => Some false
  | Some true, Some true => Some true
  | _, _ => None
  end.

(** A row passes [WHERE] when the condition is true, not NULL. *)
Definition is_true (a : option bool) : bool :=
  match a with Some true => true | _ => false end.

(** [ts_rank_cd(column, query)], NULL on a NULL column. *)
Definition sql_rank (v : option tsvector) (q : tsquery) : option score :=
  option_map (fun v => ts_rank_cd v q) v.

(** [COALESCE(x, 0)] *)
Definition coalesce_zero (x : option score) : score :=
  match x with Some s => s | None => score_zero end.

(** [ORDER BY rank DESC]: insertion, the first of two equal ranks first. *)
Fixpoint insert_by_rank (r : result) (l : list result) : list result :=
  match l with
  | [] => [r]
  | x :: rest =>
      if score_leb (rank r) (rank x) then x :: insert_by_rank r rest
      else r :: l
  end.

Fixpoint order_by_rank_desc (l : list result) : list result :=
  match l with
  | [] => []
  | r :: rest => insert_by_rank r (order_by_rank_desc rest)
  end.

Definition statement_error (msg : string) : exn := PyExc ProgrammingError msg.

(** [ORDER BY rank DESC LIMIT n]; the count of [LIMIT] is a bigint. *)
Definition order_and_limit (limit : Z) (l : list result)
  : outcome (list result) :=
  if (limit <? 0)%Z then Exc (statement_error "LIMIT must not be negative")
  else if (2 ^ 63 <=? limit)%Z then Exc (PyExc DataError "bigint out of range")
  else Val (firstn (Z.to_nat limit) (order_by_rank_desc l)).

(** The single-language statement:
    [SELECT file_path, ts_rank_cd(col, query) as rank,
            ts_headline(%s, content, query, %s) as headline
     FROM extracted_files, plainto_tsquery(%s, %s) query
     WHERE query @@ col AND file_extension IN %s
     ORDER BY rank DESC LIMIT %s] *)
Definition select_one_language (tsvector_col : string) (params : list param)
    (docs : list doc) : outcome (list result) :=
  match params with
  | [PStr headline_config; PStr headline_opts; PStr query_config;
     PStr query_string; PTuple extensions; PInt limit] =>
      match plainto_tsquery query_config query_string, column tsvector_col with
      | None, _ =>
          Exc (statement_error "text search configuration does not exist")
      | _, None => Exc (statement_error "column does not exist")
      | Some query, Some col =>
          let selected :=
            filter (fun d =>
                      is_true
                        (sql_and (sql_match query (col d))
                           (Some (in_set (file_extension d) extensions))))
                   docs in
          (* a selected row has a column that is not NULL *)
          let rows :=
            flat_map (fun d =>
                        match col d with
                        | Some v =>
                            [mkResult (file_path d) (ts_rank_cd v query)
                               (ts_headline headline_config (content d)
                                  query headline_opts)]
                        | None => []
                        end)
                     selected in
          order_and_limit limit rows
      end
  | _ => Exc (statement_error "not all arguments converted")
  end.

(** The statement of the [both] branch:
    [SELECT file_path,
            COALESCE(ts_rank_cd(content_tsv_en, query_en), 0) +
            COALESCE(ts_rank_cd(content_tsv_ru, query_ru), 0) as rank,
            ts_headline(%s, content, query_en, %s) as headline
     FROM extracted_files,
          plainto_tsquery(%s, %s) query_en, plainto_tsquery(%s, %s) query_ru
     WHERE (query_en @@ content_tsv_en OR query_ru @@ content_tsv_ru)
           AND file_extension IN %s
     ORDER BY rank DESC LIMIT %s] *)
Definition both_where (query_en query_ru : tsquery) (extensions : list string)
    (d : doc) : bool :=
  is_true
    (sql_and
       (sql_or (sql_match query_en (content_tsv_en d))
               (sql_match query_ru (content_tsv_ru d)))
       (Some (in_set (file_extension d) extensions))).

Definition both_rank (query_en query_ru : tsquery) (d : doc) : score :=
  score_add (coalesce_zero (sql_rank (content_tsv_en d) query_en))
            (coalesce_zero (sql_rank (content_tsv_ru d) query_ru)).

Definition both_row (headline_config headline_opts : string)
    (query_en query_ru : tsquery) (d : doc) : result :=
  mkResult (file_path d) (both_rank query_en query_ru d)
    (ts_headline headline_config (content d) query_en headline_opts).

Definition select_both (params : list param) (docs : list doc)
  : outcome (list result) :=
  match params with
  | [PStr headline_config; PStr headline_opts; PStr en_config;
     PStr en_string; PStr ru_config; PStr ru_string; PTuple extensions;
     PInt limit] =>
      match plainto_tsquery en_config en_string,
            plainto_tsquery ru_config ru_string with
      | Some query_en, Some query_ru =>
          order_and_limit limit
            (map (both_row headline_config headline_opts query_en query_ru)
                 (filter (both_where query_en query_ru extensions) docs))
      | _, _ => Exc (statement_error "text search configuration does not exist")
      end
  | _ => Exc (statement_error "not all arguments converted")
  end.

(** What the server does with a statement: the rows it returns, the
    table afterwards. *)
Definition run_statement (s : statement) (docs : list doc) (u : unit)
  : outcome (list result) * list doc * unit :=
  match s with
  | SetClientMinMessages => (Val [], docs, u)
  | Script sql_script =>
      match run_script sql_script docs with
      | Val docs' => (Val [], docs', u)
      | Exc e => (Exc e, docs, u)
      end
  | Select SelectBoth params => (select_both params docs, docs, u)
  | Select (SelectOneLanguage col) params =>
      (select_one_language col params docs, docs, u)
  end.

(** ** The world of search_pkm.py *)

Record environment : Type := mkEnv {
  credentials_configured : bool;        (* all of DB_NAME ... DB_PORT are set *)
  connect : outcome unit;               (* [psycopg2.connect(...)] *)
  setup_file_exists : bool;             (* [os.path.exists(sql_file)] *)
  setup_file : outcome string           (* open and read [sql_file] *)
}.

Inductive message : Type :=
| Credentials_not_configured
| Successfully_connected
| Database_connection_failed (e : exn)
| Unexpected_error_during_connection (e : exn)
| SQL_setup_file_not_found (sql_file : string)
| Successfully_executed_setup (sql_file : string)
| Error_executing_setup (e : exn)
| Unexpected_error_during_setup (e : exn)
| Search_query_cannot_be_empty
| Invalid_language_specified (language : string)
| Executing_search_query (language : string) (s : statement)
| Could_not_construct_query (language : string)
| Found_results (n : nat) (query_string language : string)
| Database_error_during_search (e : exn)
| Failed_query (s : statement)
| Failed_query_could_not_mogrify (s : statement) (log_e : exn)
| Failed_query_not_formed (conn_closed : bool)
| Unexpected_error_during_search (e : exn)
| Failed_query_context (s : statement)
| Failed_query_context_could_not_mogrify (s : statement) (log_e : exn)
| Running_database_setup (sql_file : string)
| Database_setup_failed
| Database_setup_completed
| Searching_for (query_string language : string) (limit : Z)
| Database_connection_closed
| Database_connection_already_closed.

Definition log_record : Type := (levelname * message)%type.

(** What the program prints. *)
Inductive out_line : Type :=
| Search_Results_header
| Result_path (i : nat) (path : string) (rank : score)
| Result_context (headline_text : text)
| Search_Results_footer
| No_results_found
| An_error_occurred_during_the_search
| Entering_interactive_search_mode
| Using_configurations (en ru simple : string)
| Prompt_search_query
| Prompt_language
| Invalid_language_defaulting (lang_choice_input : string)
| Empty_line
| Exiting_interactive_mode.

Record world : Type := mkWorld {
  db : connection;
  log : list log_record;
  stdout : list out_line;
  accesses : nat;
  env_at : nat -> environment
}.

Definition set_db (c : connection) (w : world) : world :=
  mkWorld c (log w) (stdout w) (accesses w) (env_at w).

Definition on_db {A : Type} (m : M connection A) : M world A :=
  fun w => let (r, c) := m (db w) in (r, set_db c w).

Definition logging_log (l : levelname) (m : message) : M world unit :=
  fun w =>
    (Val tt,
     if isEnabledFor l
     then mkWorld (db w) (log w ++ [(l, m)]) (stdout w) (accesses w) (env_at w)
     else w).

Definition logging_debug := logging_log DEBUG.
Definition logging_info := logging_log INFO.
Definition logging_warning := logging_log WARNING.
Definition logging_error := logging_log ERROR.

Definition print (l : out_line) : M world unit :=
  fun w =>
    (Val tt, mkWorld (db w) (log w) (stdout w ++ [l]) (accesses w) (env_at w)).

Definition access : M world environment :=
  fun w =>
    (Val (env_at w (accesses w)),
     mkWorld (db w) (log w) (stdout w) (S (accesses w)) (env_at w)).

(** The handle [conn]: [None], or the one connection of the world. *)
Inductive conn_handle : Type := the_connection.

(** [conn.cursor()] on a handle: [None] has no attribute [cursor]. *)
Definition conn_cursor (conn : option conn_handle) : M world unit :=
  match conn with
  | None => raise (PyExc AttributeError
                     "'NoneType' object has no attribute 'cursor'")
  | Some _ => on_db cursor
  end.

(** [conn.rollback()] on a handle. *)
Definition conn_rollback (conn : option conn_handle) : M world unit :=
  match conn with
  | None => raise (PyExc AttributeError
                     "'NoneType' object has no attribute 'rollback'")
  | Some _ => on_db rollback
  end.

(** [cur.mogrify(query, params)]: the driver writes the parameters into
    the statement, or raises for the one it refuses; nothing is sent. *)
Definition mogrify (s : statement) : M world unit :=
  match adapt s with
  | Some e => raise e
  | None => ret tt
  end.

(** ** The program *)

Definition get_db_connection : M world (option conn_handle) :=
  env <- access ;;
  if negb (credentials_configured env)
  then logging_error Credentials_not_configured ;; ret None
  else
    try_except
      (match connect env with
       | Exc e => raise e
       | Val _ =>
           on_db cursor ;;
           _ <- on_db (execute run_statement SetClientMinMessages) ;;
           on_db commit ;;
           logging_info Successfully_connected ;;
           ret (Some the_connection)
       end)
      (fun e =>
         match exc_type e with
         | OperationalError =>
             logging_error (Database_connection_failed e) ;; ret None
         | _ =>
             logging_error (Unexpected_error_during_connection e) ;; ret None
         end).

(** Server notices are not modelled: the loops over [conn.notices] log
    nothing. *)
Definition execute_sql_setup (conn : option conn_handle) (sql_file : string)
  : M world bool :=
  env <- access ;;
  if negb (setup_file_exists env)
  then logging_error (SQL_setup_file_not_found sql_file) ;; ret false
  else
    try_except
      (conn_cursor conn ;;
       env' <- access ;;
       match setup_file env' with
       | Exc e => raise e
       | Val sql_script =>
           _ <- on_db (execute run_statement (Script sql_script)) ;;
           on_db commit ;;
           logging_info (Successfully_executed_setup sql_file) ;;
           ret true
       end)
      (fun e =>
         if is_psycopg2_Error e || match exc_type e with OSError => true | _ => false end
         then logging_error (Error_executing_setup e) ;;
              conn_rollback conn ;;
              ret false
         else logging_error (Unexpected_error_during_setup e) ;;
              conn_rollback conn ;;
              ret false).

Definition valid_languages : list string :=
  ["english"; "russian"; "both"; "simple"]%string.

(** The [if language == ... elif ...] chain: the statement text and the
    parameters of a language; [None] where no branch is taken and [query]
    stays [None]. *)
Definition build_query (query_string language : string) (limit : Z)
  : option statement :=
  let headline_opts := HEADLINE_OPTIONS in
  if String.eqb language "english" then
    let fts_config := FTS_CONFIG_EN in
    let tsvector_col := "content_tsv_en"%string in
    Some (Select (SelectOneLanguage tsvector_col)
            [PStr fts_config; PStr headline_opts; PStr fts_config;
             PStr query_string; PTuple SUPPORTED_EXTENSIONS; PInt limit])
  else if String.eqb language "russian" then
    let fts_config := FTS_CONFIG_RU in
    let tsvector_col := "content_tsv_ru"%string in
    Some (Select (SelectOneLanguage tsvector_col)
            [PStr fts_config; PStr headline_opts; PStr fts_config;
             PStr query_string; PTuple SUPPORTED_EXTENSIONS; PInt limit])
  else if String.eqb language "simple" then
    let fts_config := FTS_CONFIG_SIMPLE in
    let tsvector_col := "content_tsv_simple"%string in
    Some (Select (SelectOneLanguage tsvector_col)
            [PStr fts_config; PStr headline_opts; PStr fts_config;
             PStr query_string; PTuple SUPPORTED_EXTENSIONS; PInt limit])
  else if String.eqb language "both" then
    let en_fts_config := FTS_CONFIG_EN in
    let ru_fts_config := FTS_CONFIG_RU in
    Some (Select SelectBoth
            [PStr en_fts_config; PStr headline_opts; PStr en_fts_config;
             PStr query_string; PStr ru_fts_config; PStr query_string;
             PTuple SUPPORTED_EXTENSIONS; PInt limit])
  else None.

(** The two [except] clauses of [search_documents].  [query] is the
    local of that name when the exception is raised; the statement is
    logged where [query and conn and not conn.closed], with its
    parameters written in where [mogrify] does not raise. *)
Definition search_failed (conn : option conn_handle) (query : option statement)
    (e : exn) : M world (option (list result)) :=
  w <- get ;;
  let conn_closed :=
    match conn with Some _ => closed (db w) | None => false end in
  let to_log :=
    match query, conn with
    | Some q, Some _ => if closed (db w) then None else Some q
    | _, _ => None
    end in
  if is_psycopg2_Error e then
    logging_error (Database_error_during_search e) ;;
    match to_log with
    | Some q =>
        try_except
          (mogrify q ;; logging_error (Failed_query q))
          (fun log_e => logging_error (Failed_query_could_not_mogrify q log_e))
    | None => logging_error (Failed_query_not_formed conn_closed)
    end ;;
    ret None
  else
    logging_error (Unexpected_error_during_search e) ;;
    match to_log with
    | Some q =>
        try_except
          (mogrify q ;; logging_error (Failed_query_context q))
          (fun log_e =>
             logging_error (Failed_query_context_could_not_mogrify q log_e))
    | None => ret tt
    end ;;
    ret None.

(** [search_documents].  The [try] block is written in two parts, so
    that each hands the value of the local [query] at that point to the
    [except] clauses: [None] while the cursor is opened, the statement
    of [build_query] afterwards.  The argument of [logging.debug] is an
    f-string: its [cur.mogrify] is evaluated whatever the level. *)
Definition search_documents (conn : option conn_handle)
    (query_string language : string) (limit : Z)
  : M world (option (list result)) :=
  if String.eqb query_string "" then
    logging_warning Search_query_cannot_be_empty ;; ret (Some [])
  else if negb (in_set language valid_languages) then
    logging_error (Invalid_language_specified language) ;; ret None
  else
    opened <- try_except (conn_cursor conn ;; ret (inl tt))
                (fun e => r <- search_failed conn None e ;; ret (inr r)) ;;
    match opened with
    | inr r => ret r
    | inl _ =>
        let query := build_query query_string language limit in
        try_except
          (match query with
           | Some q =>
               mogrify q ;;
               logging_debug (Executing_search_query language q) ;;
               results <- on_db (execute run_statement q) ;;
               logging_info (Found_results (List.length results)
                               query_string language) ;;
               ret (Some results)
           | None =>
               logging_error (Could_not_construct_query language) ;;
               ret None
           end)
          (search_failed conn query)
    end.

(** ** The command line *)

Record arguments : Type := mkArgs {
  setup : bool;             (* --setup *)
  query : option string;    (* -q, --query *)
  lang : string;            (* -l, --lang *)
  limit : Z                 (* -n, --limit *)
}.

(** [.replace('\n', ' ').replace('\r', '').replace('\t', ' ')] *)
Fixpoint clean_headline (t : text) : text :=
  match t with
  | [] => []
  | c :: r =>
      if (c =? 10)%N then 32%N :: clean_headline r
      else if (c =? 13)%N then clean_headline r
      else if (c =? 9)%N then 32%N :: clean_headline r
      else c :: clean_headline r
  end.

(** [for i, result in enumerate(search_results): print(...); print(...)] *)
Fixpoint print_results (i : nat) (rs : list result) : M world unit :=
  match rs with
  | [] => ret tt
  | r :: rest =>
      print (Result_path (i + 1) (res_file_path r) (rank r)) ;;
      print (Result_context (clean_headline (headline r))) ;;
      print_results (S i) rest
  end.

(** What both modes do with the value of [search_documents]. *)
Definition show (search_results : option (list result)) : M world unit :=
  match search_results with
  | Some rs =>
      match rs with
      | _ :: _ =>
          print Search_Results_header ;;
          print_results 0 rs ;;
          print Search_Results_footer
      | [] => print No_results_found
      end
  | None => print An_error_occurred_during_the_search
  end.

(** What [input()] can give. *)
Inductive stdin_event : Type :=
| Line (s : string)
| EOFError
| KeyboardInterrupt.

Definition lang_options : list string :=
  ["english"; "russian"; "both"; "simple"]%string.

(** The [while True] loop of the interactive mode over what is left of
    the standard input; an exhausted input is at its end. *)
Fixpoint interactive_loop (conn : option conn_handle) (limit : Z)
    (stdin : list stdin_event) : M world unit :=
  match stdin with
  | [] => print Prompt_search_query ;; print Empty_line
  | EOFError :: _ | KeyboardInterrupt :: _ =>
      print Prompt_search_query ;; print Empty_line
  | Line search_term :: rest =>
      print Prompt_search_query ;;
      if String.eqb search_term "" then interactive_loop conn limit rest
      else
        print Prompt_language ;;
        match rest with
        | [] | EOFError :: _ | KeyboardInterrupt :: _ => print Empty_line
        | Line l :: rest' =>
            let lang_choice_input := strip (lower l) in
            lang_choice <-
              (if String.eqb lang_choice_input "" then ret "english"%string
               else if in_set lang_choice_input lang_options
                    then ret lang_choice_input
               else print (Invalid_language_defaulting lang_choice_input) ;;
                    ret "english"%string) ;;
            search_results <- search_documents conn search_term lang_choice limit ;;
            show search_results ;;
            interactive_loop conn limit rest'
        end
  end.

(** [conn.close()] *)
Definition close : M world unit :=
  on_db (fun c => (Val tt, set_closed true c)).

(** The script from [conn = get_db_connection()] on; the value is the
    exit status. *)
Definition main (args : arguments) (stdin : list stdin_event) : M world Z :=
  conn <- get_db_connection ;;
  match conn with
  | None => ret 1%Z
  | Some _ =>
      exited <-
        (if setup args then
           logging_info (Running_database_setup SQL_SETUP_FILE) ;;
           ok <- execute_sql_setup conn SQL_SETUP_FILE ;;
           if negb ok
           then logging_error Database_setup_failed ;; close ;; ret true
           else logging_info Database_setup_completed ;; ret false
         else ret false) ;;
      if exited : bool then ret 1%Z
      else
        (match query args with
         | Some (String _ _ as q) =>
             logging_info (Searching_for q (lang args) (limit args)) ;;
             search_results <- search_documents conn q (lang args) (limit args) ;;
             show search_results
         | _ =>
             if negb (setup args) then
               print Entering_interactive_search_mode ;;
               print (Using_configurations FTS_CONFIG_EN FTS_CONFIG_RU
                        FTS_CONFIG_SIMPLE) ;;
               try_except (interactive_loop conn (limit args) stdin)
                 (fun e => print Exiting_interactive_mode ;; raise e) ;;
               print Exiting_interactive_mode
             else ret tt
         end) ;;
        w <- get ;;
        (if negb (closed (db w))
         then close ;; logging_info Database_connection_closed
         else logging_info Database_connection_already_closed) ;;
        ret 0%Z
  end.

(** ** The vocabulary of the properties *)



(** The world after a record is added to the log. *)
Definition logged (l : levelname) (m : message) (w : world) : world :=
  mkWorld (db w) (log w ++ [(l, m)]) (stdout w) (accesses w) (env_at w).



(** The two records by which [search_documents] rejects its input. *)
Definition rejection (m : message) : bool :=
  match m with
  | Search_query_cannot_be_empty | Invalid_language_specified _ => true
  | _ => false
  end.


(** The character is a line feed, a carriage return or a tab. *)
Definition line_breaking (c : N) : bool :=
  ((c =? 10) || (c =? 13) || (c =? 9))%N.

End WithEngine.

#[export] Existing Instance adapt_statement.

(** ** An engine and a world to run the program in *)

(** An engine of whole words: a searchable representation is the list
    of the words of the content, a query is the one word of the query
    string, the relevance is the number of occurrences of the word, and
    the headline is the content. *)
Definition occurrences (word : string) (v : list string) : nat :=
  List.length (filter (String.eqb word) v).

Definition word_match (q v : list string) : bool :=
  forallb (fun word => in_set word v) q.

Definition word_rank (v q : list string) : nat :=
  if word_match q v
  then fold_right (fun word n => occurrences word v + n) 0 q
  else 0.

#[local] Instance word_engine : engine := {|
  tsvector := list string;
  tsquery := list string;
  score := nat;
  score_zero := 0;
  score_add := Nat.add;
  score_leb := Nat.leb;
  plainto_tsquery := fun config query_string =>
    if in_set config [FTS_CONFIG_EN; FTS_CONFIG_RU; FTS_CONFIG_SIMPLE]
    then Some [query_string] else None;
  ts_match := word_match;
  ts_rank_cd := word_rank;
  ts_headline := fun _ content _ _ => content;
  run_script := fun _ docs => Val docs
|}.

Definition code_points (s : string) : text :=
  map N_of_ascii (list_ascii_of_string s).

(** Three records: one that matches "hello" in English only, one in
    both languages, one whose extension is not supported. *)
Definition library : list (document (list string)) :=
  [mkDocument "docs/a.txt" ".txt" (code_points "hello world")
     (Some ["hello"; "world"]%string) (Some ["privet"]%string)
     (Some ["hello"; "world"]%string);
   mkDocument "docs/c.md" ".md" (code_points "hello hello md")
     (Some ["hello"; "hello"; "md"]%string) (Some ["hello"]%string) None;
   mkDocument "docs/x.doc" ".doc" (code_points "hello")
     (Some ["hello"]%string) (Some ["hello"]%string) (Some ["hello"]%string)].

Definition terminal : environment :=
  mkEnv true (Val tt) false (Exc (PyExc OSError "No such file or directory")).

Definition desk : @world word_engine :=
  mkWorld (mkConnection library tt Idle false []) [] [] 0 (fun _ => terminal).


End SearchPkm.

Unset Implicit Arguments.

(** * The models of the library functions, on examples *)

Example utf8_decode_two_bytes :
  utf8_decode [x63; x61; x66; xc3; xa9] = Some [0x63; 0x61; 0x66; 0xE9]%N.
Proof. reflexivity. Qed.

Example utf8_decode_four_bytes :
  utf8_decode [xf0; x9f; x98; x80] = Some [0x1F600%N].
Proof. reflexivity. Qed.

(** A lone latin-1 byte, an overlong form, a surrogate and a truncated
    sequence are refused. *)
Example utf8_decode_refuses :
  utf8_decode [x63; x61; x66; xe9] = None
  /\ utf8_decode [xc0; x80] = None
  /\ utf8_decode [xed; xa0; x80] = None
  /\ utf8_decode [xe2; x82] = None.
Proof. repeat split. Qed.

Example universal_newlines_example :
  universal_newlines [0x61; 13; 10; 0x62; 13; 0x63; 10]%N
  = [0x61; 10; 0x62; 10; 0x63; 10]%N.
Proof. reflexivity. Qed.

Example splitext_examples :
  splitext "notes.v2.TXT" = ("notes.v2"%string, ".TXT"%string)
  /\ splitext ".bashrc" = (".bashrc"%string, ""%string)
  /\ splitext "..txt" = ("..txt"%string, ""%string)
  /\ splitext "README" = ("README"%string, ""%string).
Proof. repeat split. Qed.

Example os_path_join_examples :
  os_path_join "docs" "a.txt" = "docs/a.txt"%string
  /\ os_path_join "docs/" "a.txt" = "docs/a.txt"%string
  /\ os_path_join "" "a.txt" = "a.txt"%string.
Proof. repeat split. Qed.

Example lower_strip_example : strip (lower "  BoTh ") = "both"%string.
Proof. reflexivity. Qed.

(** A value of ten characters fits [VARCHAR(10)]; one of eleven does
    not, unless the eleventh is a space, which is cut. *)
Example varchar_examples :
  Parse.varchar 10 ".txt" = Some ".txt"%string
  /\ Parse.varchar 10 ".extension" = Some ".extension"%string
  /\ Parse.varchar 10 ".extensions" = None
  /\ Parse.varchar 10 ".extension " = Some ".extension"%string.
Proof. repeat split. Qed.

(** The driver refuses NUL in a path and in a content, and a surrogate
    in a content, which it meets first. *)
Example adapt_examples :
  Parse.adapt_statement (Parse.InsertOnConflictDoNothing "docs/a.txt" ".txt" [0x61; 0x62]%N)
  = None
  /\ Parse.adapt_statement (Parse.InsertOnConflictDoNothing "docs/a.txt" ".txt"
              [0x61; 0; 0x62]%N)
     = Some Psycopg2.NUL_refused
  /\ Parse.adapt_statement (Parse.InsertOnConflictDoNothing
              (String (ascii_of_N 0) "a.txt") ".txt" [0x61]%N)
     = Some Psycopg2.NUL_refused
  /\ Parse.adapt_statement (Parse.InsertOnConflictDoNothing "docs/a.txt" ".txt"
              [0; 0xD800]%N)
     = Some Psycopg2.not_encodable.
Proof. repeat split. Qed.

(** * Rules of the monad *)

Section Rules.

Context {W : Type} (I : W -> Prop).

Lemma preserves_ret {A : Type} (a : A) : preserves I (ret a).
Proof. intros w H. exact H. Qed.

Lemma preserves_raise {A : Type} (e : exn) : preserves I (@raise W A e).
Proof. intros w H. exact H. Qed.

Lemma preserves_bind {A B : Type} (m : M W A) (k : A -> M W B) :
  preserves I m -> (forall a, preserves I (k a)) -> preserves I (bind m k).
Proof.
  intros Hm Hk w H. unfold bind. specialize (Hm w H).
  destruct (m w) as [[a|e] w']; cbn in *; [now apply Hk|assumption].
Qed.

Lemma preserves_try_except {A : Type} (m : M W A) (h : exn -> M W A) :
  preserves I m -> (forall e, preserves I (h e)) -> preserves I (try_except m h).
Proof.
  intros Hm Hh w H. unfold try_except. specialize (Hm w H).
  destruct (m w) as [[a|e] w']; cbn in *; [assumption|now apply Hh].
Qed.

Lemma total_ret {A : Type} (a : A) : total (@ret W A a).
Proof. intros w. now exists a, w. Qed.

Lemma total_bind {A B : Type} (m : M W A) (k : A -> M W B) :
  total m -> (forall a, total (k a)) -> total (bind m k).
Proof.
  intros Hm Hk w. unfold bind. destruct (Hm w) as (a & w' & E). rewrite E.
  apply Hk.
Qed.

(** A [try] whose handler always returns always returns. *)
Lemma total_try_except {A : Type} (m : M W A) (h : exn -> M W A) :
  (forall e, total (h e)) -> total (try_except m h).
Proof.
  intros Hh w. unfold try_except. destruct (m w) as [[a|e] w'].
  - now exists a, w'.
  - apply Hh.
Qed.

End Rules.

(** One step through a computation, for an invariant. *)
Ltac step :=
  first [ apply preserves_bind; [|intros ?]
        | apply preserves_try_except; [|intros ?]
        | apply preserves_ret
        | apply preserves_raise ].

(** * Facts about parse.py *)

Module ParseFacts.

Import Psycopg2 Parse.

(** ** What leaves the store alone *)

Lemma preserves_logging (I : connection -> Prop) l m :
  preserves (fun w => I (db w)) (logging_log l m).
Proof.
  intros w H. unfold logging_log, snd.
  destruct (isEnabledFor l); exact H.
Qed.

Lemma total_logging l m : total (logging_log l m).
Proof. intros w. unfold logging_log. eauto. Qed.

Lemma preserves_access (I : connection -> Prop) :
  preserves (fun w => I (db w)) access.
Proof. intros w H. exact H. Qed.

Lemma preserves_on_db (I : connection -> Prop) {A : Type} (m : M connection A) :
  preserves I m -> preserves (fun w => I (db w)) (on_db m).
Proof.
  intros Hm w H. unfold on_db. specialize (Hm (db w) H).
  now destruct (m (db w)).
Qed.

(** ** The uniqueness of paths *)

Lemma path_stored_In p rs : path_stored p rs = true <-> In p (map file_path rs).
Proof.
  unfold path_stored. rewrite existsb_exists. split.
  - intros (r & Hr & E). apply String.eqb_eq in E. subst. now apply in_map.
  - intros H. apply in_map_iff in H. destruct H as (r & E & Hr).
    exists r. split; [assumption|]. now apply String.eqb_eq.
Qed.

Lemma NoDup_app_one (l : list string) (p : string) :
  NoDup l -> ~ In p l -> NoDup (l ++ [p]).
Proof.
  induction l as [|a l IH]; intros Hn Hp; cbn.
  - constructor; [intros []|constructor].
  - inversion Hn; subst. constructor.
    + rewrite in_app_iff. intros [H|[H|[]]]; [contradiction|].
      subst. apply Hp. now left.
    + apply IH; [assumption|]. intros H. apply Hp. now right.
Qed.

Lemma unique_cursor : preserves unique_paths cursor.
Proof. intros c H. unfold cursor. now destruct (closed c). Qed.

Lemma unique_commit : preserves unique_paths commit.
Proof.
  intros [tb sq tx cl fs] [H1 H2]. unfold commit, unique_paths in *. cbn in *.
  destruct cl; cbn; [auto|]. destruct tx; cbn in *; auto.
Qed.

Lemma unique_rollback : preserves unique_paths rollback.
Proof.
  intros [tb sq tx cl fs] [H1 H2]. unfold rollback, unique_paths in *. cbn in *.
  destruct cl; cbn; auto.
Qed.

(** The conflict clause is what keeps the paths unique: the server adds
    a row only where no row has the path. *)
Lemma unique_execute s : preserves unique_paths (execute run_statement s).
Proof.
  intros [tb sq tx cl fs] [H1 H2]. unfold execute, unique_paths in *. cbn in *.
  destruct cl; cbn; [auto|].
  destruct (adapt s); cbn; [auto|].
  destruct fs as [|[[m|m]|] fs]; cbn; auto.
  all: destruct tx; cbn in *; auto.
  all: destruct s as [|p ext t]; cbn; destruct tb as [rs|]; cbn; auto.
  all: try (split; [constructor|assumption]).
  all: destruct (varchar 10 ext) as [ext'|]; cbn; auto.
  all: destruct (path_stored p rs) eqn:Hp; cbn; auto.
  all: split; [|assumption].
  all: rewrite map_app; cbn; apply NoDup_app_one; [assumption|].
  all: rewrite <- path_stored_In, Hp; discriminate.
Qed.

Ltac db_steps :=
  repeat first [ step
               | apply preserves_logging
               | apply preserves_access
               | apply preserves_on_db ].

Lemma unique_setup_database conn :
  preserves (fun w => unique_paths (db w)) (setup_database conn).
Proof.
  unfold setup_database. destruct conn; db_steps.
  all: auto using unique_cursor, unique_commit, unique_rollback, unique_execute.
Qed.

Lemma unique_insert_file_data conn p ext t :
  preserves (fun w => unique_paths (db w)) (insert_file_data conn p ext t).
Proof.
  unfold insert_file_data. destruct conn; db_steps.
  all: auto using unique_cursor, unique_commit, unique_rollback, unique_execute.
  destruct (0 <? a0)%Z; db_steps.
Qed.

(** ** Extraction *)

Lemma extract_text_from_txt_value (p : string) (w : world) :
  exists w', extract_text_from_txt p w =
    (Val (txt_value (env_at w (accesses w)) (env_at w (S (accesses w))) p), w')
    /\ db w' = db w /\ env_at w' = env_at w.
Proof.
  unfold extract_text_from_txt, txt_value, try_except, bind, read_text, access,
    raise, ret.
  cbn.
  destruct (read_bytes (env_at w (accesses w)) p) as [bs|e] eqn:R1; cbn.
  - destruct (utf8_decode bs) as [t|] eqn:D; cbn.
    + eexists; split; [reflexivity|]. cbn. auto.
    + destruct (read_bytes (env_at w (S (accesses w))) p) as [bs'|e'] eqn:R2; cbn.
      * eexists; split; [reflexivity|]; cbn; auto.
      * eexists; split; [reflexivity|]; cbn; auto.
  - eexists; split; [reflexivity|]; cbn; auto.
Qed.

(** The loop over the page numbers reads the pages in order. *)
Lemma read_pages_value (d : pdf_document) (w : world) :
  forall suffix prefix acc, pages d = (prefix ++ suffix)%list ->
    match pages_text suffix with
    | Some t =>
        read_pages d (seq (List.length prefix) (List.length suffix)) acc w
        = (Val (acc ++ t)%list, w)
    | None =>
        exists e,
          read_pages d (seq (List.length prefix) (List.length suffix)) acc w
          = (Exc e, w)
    end.
Proof.
  induction suffix as [|pg suffix IH]; intros prefix acc Hp; cbn.
  - now rewrite app_nil_r.
  - unfold bind, page_text. rewrite Hp, nth_error_app2, Nat.sub_diag by lia. cbn.
    destruct pg as [t|e]; cbn.
    + specialize (IH (prefix ++ [Val t])%list (acc ++ t)%list).
      rewrite <- app_assoc in IH. specialize (IH Hp).
      rewrite length_app, Nat.add_1_r in IH.
      destruct (pages_text suffix) as [t'|]; cbn.
      * rewrite IH. now rewrite app_assoc.
      * exact IH.
    + now exists e.
Qed.

Lemma extract_text_from_pdf_value (p : string) (w : world) :
  exists w', extract_text_from_pdf p w =
    (Val (pdf_value (env_at w (accesses w)) p), w')
    /\ db w' = db w /\ env_at w' = env_at w.
Proof.
  unfold extract_text_from_pdf, pdf_value, try_except, bind, access. cbn.
  destruct (fitz_open (env_at w (accesses w)) p) as [d|e]; cbn.
  - destruct (is_encrypted d && (authenticate d "" =? 0)%Z); cbn.
    + eexists; split; [reflexivity|]; cbn; auto.
    + pose proof (read_pages_value d
        {| db := db w; log := log w; accesses := S (accesses w);
           env_at := env_at w |}
        (pages d) [] [] eq_refl) as H.
      cbn in H. destruct (pages_text (pages d)) as [t|].
      * rewrite H. cbn. eexists; split; [reflexivity|]; cbn; auto.
      * destruct H as (e & H). rewrite H.
        destruct e as [[] s]; cbn; eexists; (split; [reflexivity|]); cbn; auto.
  - destruct e as [[] s]; cbn; eexists; (split; [reflexivity|]); cbn; auto.
Qed.

Lemma pages_text_all_read (ts : list text) :
  pages_text (map Val ts) = Some (List.concat ts).
Proof.
  induction ts as [|t ts IH]; cbn; [reflexivity|]. now rewrite IH.
Qed.

(** ** One file, and the loops *)

(** No exception leaves the body of the loop: the run goes on to the
    next file whatever happens to this one. *)
Lemma process_file_total conn root filename n :
  total (process_file conn root filename n).
Proof.
  unfold process_file. apply total_try_except. intros e.
  apply total_bind; [apply total_logging|intros _; apply total_ret].
Qed.

Lemma process_files_total conn root files :
  forall n, total (process_files conn root files n).
Proof.
  induction files as [|f files IH]; intros n; cbn.
  - apply total_ret.
  - apply total_bind; [apply process_file_total|exact IH].
Qed.

Lemma process_walk_total conn walk :
  forall n, total (process_walk conn walk n).
Proof.
  induction walk as [|[root files] walk IH]; intros n; cbn.
  - apply total_ret.
  - apply total_bind; [apply process_files_total|exact IH].
Qed.

Lemma process_directory_total directory_path conn :
  total (process_directory directory_path conn).
Proof.
  unfold process_directory. destruct conn.
  - apply total_bind; [apply total_logging|intros _].
    apply total_bind; [intros w; unfold access; eauto|intros env].
    apply total_bind; [apply process_walk_total|intros n].
    repeat (apply total_bind; [apply total_logging|intros _]).
    apply total_ret.
  - apply total_bind; [apply total_logging|intros _; apply total_ret].
Qed.

Lemma preserves_extract_txt (I : connection -> Prop) p :
  preserves (fun w => I (db w)) (extract_text_from_txt p).
Proof.
  intros w H. destruct (extract_text_from_txt_value p w) as (w' & E & Hd & _).
  rewrite E. cbn. now rewrite Hd.
Qed.

Lemma preserves_extract_pdf (I : connection -> Prop) p :
  preserves (fun w => I (db w)) (extract_text_from_pdf p).
Proof.
  intros w H. destruct (extract_text_from_pdf_value p w) as (w' & E & Hd & _).
  rewrite E. cbn. now rewrite Hd.
Qed.

Lemma unique_process_file conn root filename n :
  preserves (fun w => unique_paths (db w)) (process_file conn root filename n).
Proof.
  unfold process_file, extract_text_from_md.
  apply preserves_try_except; [|intros e; db_steps].
  destruct (in_set _ SUPPORTED_EXTENSIONS); [|db_steps].
  apply preserves_bind; [apply preserves_logging|intros _].
  apply preserves_bind.
  - repeat match goal with
           | |- context [if ?b then _ else _] => destruct b
           end.
    all: auto using preserves_extract_txt, preserves_extract_pdf, preserves_ret.
  - intros [t|]; [|db_steps].
    apply preserves_bind; [apply unique_insert_file_data|].
    intros []; db_steps.
Qed.

Lemma unique_process_files conn root files :
  forall n, preserves (fun w => unique_paths (db w))
              (process_files conn root files n).
Proof.
  induction files as [|f files IH]; intros n; cbn; [db_steps|].
  apply preserves_bind; [apply unique_process_file|exact IH].
Qed.

Lemma unique_process_walk conn walk :
  forall n, preserves (fun w => unique_paths (db w)) (process_walk conn walk n).
Proof.
  induction walk as [|[root files] walk IH]; intros n; cbn; [db_steps|].
  apply preserves_bind; [apply unique_process_files|exact IH].
Qed.

Lemma unique_process_directory directory_path conn :
  preserves (fun w => unique_paths (db w))
    (process_directory directory_path conn).
Proof.
  unfold process_directory. destruct conn; [|db_steps].
  apply preserves_bind; [apply preserves_logging|intros _].
  apply preserves_bind; [apply preserves_access|intros env].
  apply preserves_bind; [apply unique_process_walk|intros n].
  db_steps.
Qed.

Lemma unique_run_calls ks :
  forall w, unique_paths (db w) -> unique_paths (db (run_calls ks w)).
Proof.
  induction ks as [|k ks IH]; intros w H; [exact H|].
  cbn. apply IH. revert w H.
  change (preserves (fun w => unique_paths (db w)) (run_call k)).
  destruct k; unfold run_call; apply preserves_bind;
    try (intros ?; apply preserves_ret).
  - apply unique_setup_database.
  - apply unique_insert_file_data.
  - apply unique_process_directory.
Qed.

Lemma at_most_one_record (P : string) (rs : list row) :
  NoDup (map file_path rs) ->
  List.length (filter (fun r => String.eqb (file_path r) P) rs) <= 1.
Proof.
  induction rs as [|r rs IH]; cbn; intros Hn; [lia|].
  inversion Hn as [|? ? Hnot Hrest]; subst.
  destruct (String.eqb (file_path r) P) eqn:E; [|now apply IH].
  apply String.eqb_eq in E. cbn.
  assert (Hnone : filter (fun r0 => String.eqb (file_path r0) P) rs = []).
  { destruct (filter _ rs) as [|x l] eqn:F; [reflexivity|exfalso].
    assert (Hx : In x (filter (fun r0 => String.eqb (file_path r0) P) rs))
      by (rewrite F; now left).
    apply filter_In in Hx. destruct Hx as (Hx & Ex).
    apply String.eqb_eq in Ex. apply Hnot. rewrite E, <- Ex. now apply in_map. }
  rewrite Hnone. cbn. lia.
Qed.

(** ** A run on a settled connection in a static file system *)

Lemma content_value (e : environment) (file_ext p : string) (w : world) :
  static w e ->
  exists w',
    (if String.eqb file_ext ".txt" then extract_text_from_txt p
     else if String.eqb file_ext ".md" then extract_text_from_md p
     else if String.eqb file_ext ".pdf" then extract_text_from_pdf p
     else ret None) w = (Val (extraction e file_ext p), w')
    /\ db w' = db w /\ static w' e.
Proof.
  intros Hs. unfold extraction, extract_text_from_md.
  destruct (String.eqb file_ext ".txt");
    [|destruct (String.eqb file_ext ".md");
      [|destruct (String.eqb file_ext ".pdf")]].
  1,2: destruct (extract_text_from_txt_value p w) as (w' & E & Hd & He);
       rewrite !Hs in E; exists w'; repeat split; auto;
       intros t; rewrite He; apply Hs.
  - destruct (extract_text_from_pdf_value p w) as (w' & E & Hd & He).
    rewrite Hs in E. exists w'. repeat split; auto.
    intros t; rewrite He; apply Hs.
  - exists w. repeat split; auto.
Qed.

Lemma supported_fits (ext : string) :
  in_set ext SUPPORTED_EXTENSIONS = true -> varchar 10 ext = Some ext.
Proof.
  unfold in_set, SUPPORTED_EXTENSIONS. cbn [existsb]. intros H.
  repeat (apply orb_true_iff in H; destruct H as [H|H]); try discriminate.
  all: apply String.eqb_eq in H; subst; reflexivity.
Qed.

Lemma insert_file_data_settled p ext t rs sq (w : world) :
  db w = settled rs sq ->
  exists w',
    insert_file_data (Some the_connection) p ext t w
    = (Val (fst (fst (insert_step rs sq p ext t))), w')
    /\ db w' = settled (snd (fst (insert_step rs sq p ext t)))
                       (snd (insert_step rs sq p ext t))
    /\ env_at w' = env_at w.
Proof.
  destruct w as [c l a ev]. cbn [db env_at]. intros ->.
  unfold insert_file_data, try_except, bind, on_db, cursor, execute, commit,
    rollback, settled, insert_step, adaptable.
  cbn [db closed set_db].
  destruct (adapt (InsertOnConflictDoNothing p ext t)) as [x|].
  - cbn. eexists. repeat split.
  - cbn. destruct (varchar 10 ext) as [ext'|]; cbn.
    + destruct (path_stored p rs); cbn; eexists; repeat split.
    + eexists. repeat split.
Qed.

Lemma process_file_settled e root filename n rs sq (w : world) :
  static w e -> db w = settled rs sq ->
  exists w',
    process_file (Some the_connection) root filename n w
    = (Val (snd (file_step e (rs, sq, n) (root, filename))), w')
    /\ db w' = settled (fst (fst (file_step e (rs, sq, n) (root, filename))))
                       (snd (fst (file_step e (rs, sq, n) (root, filename))))
    /\ static w' e.
Proof.
  intros Hs Hd.
  unfold process_file, file_step, verdict_of, try_except, bind. cbn [fst snd].
  fold (file_ext_of filename).
  destruct (in_set (file_ext_of filename) SUPPORTED_EXTENSIONS).
  - set (w1 := snd (logging_info (Processing_file (os_path_join root filename)) w)).
    assert (E1 : logging_info (Processing_file (os_path_join root filename)) w
                 = (Val tt, w1)) by reflexivity.
    rewrite E1.
    assert (Hs1 : static w1 e) by (intros t; apply Hs).
    assert (Hd1 : db w1 = settled rs sq) by exact Hd.
    destruct (content_value e (file_ext_of filename)
                (os_path_join root filename) w1 Hs1) as (w2 & E2 & Hd2 & Hs2).
    rewrite E2.
    destruct (extraction e (file_ext_of filename) (os_path_join root filename))
      as [t|].
    + rewrite Hd1 in Hd2.
      destruct (insert_file_data_settled (os_path_join root filename)
                  (file_ext_of filename) t rs sq w2 Hd2)
        as (w3 & E3 & Hd3 & He3).
      rewrite E3.
      destruct (insert_step rs sq (os_path_join root filename)
                  (file_ext_of filename) t) as [[[] rs'] sq'];
        cbn [fst snd] in *.
      * exists w3. repeat split; auto. intros k. rewrite He3. apply Hs2.
      * exists w3. repeat split; auto. intros k. rewrite He3. apply Hs2.
    + cbn. eexists. repeat split; cbn; auto. congruence.
  - cbn. exists w. repeat split; auto.
Qed.

Lemma run_files_cons e st f fs :
  run_files e st (f :: fs) = run_files e (file_step e st f) fs.
Proof. reflexivity. Qed.

Lemma run_files_app e st fs gs :
  run_files e st (fs ++ gs) = run_files e (run_files e st fs) gs.
Proof. apply fold_left_app. Qed.

Lemma process_files_settled e root files :
  forall n rs sq (w : world), static w e -> db w = settled rs sq ->
  exists w',
    process_files (Some the_connection) root files n w
    = (Val (snd (run_files e (rs, sq, n) (map (pair root) files))), w')
    /\ db w' = settled (fst (fst (run_files e (rs, sq, n) (map (pair root) files))))
                       (snd (fst (run_files e (rs, sq, n) (map (pair root) files))))
    /\ static w' e.
Proof.
  induction files as [|f files IH]; intros n rs sq w Hs Hd.
  - exists w. auto.
  - cbn [process_files map]. rewrite run_files_cons. unfold bind.
    destruct (process_file_settled e root f n rs sq w Hs Hd)
      as (w1 & E & Hd1 & Hs1).
    rewrite E.
    destruct (file_step e (rs, sq, n) (root, f)) as [[rs1 sq1] n1] eqn:F.
    cbn [fst snd] in *. apply IH; assumption.
Qed.

Lemma process_walk_settled e walk :
  forall n rs sq (w : world), static w e -> db w = settled rs sq ->
  exists w',
    process_walk (Some the_connection) walk n w
    = (Val (snd (run_files e (rs, sq, n) (walk_files walk))), w')
    /\ db w' = settled (fst (fst (run_files e (rs, sq, n) (walk_files walk))))
                       (snd (fst (run_files e (rs, sq, n) (walk_files walk))))
    /\ static w' e.
Proof.
  induction walk as [|[root files] walk IH]; intros n rs sq w Hs Hd.
  - exists w. auto.
  - cbn [process_walk walk_files flat_map fst snd]. unfold bind.
    destruct (process_files_settled e root files n rs sq w Hs Hd)
      as (w1 & E & Hd1 & Hs1).
    rewrite E. rewrite run_files_app.
    destruct (run_files e (rs, sq, n) (map (pair root) files)) as [[rs1 sq1] n1].
    cbn [fst snd] in *. apply IH; assumption.
Qed.

Lemma process_directory_settled e directory_path rs sq (w : world) :
  static w e -> db w = settled rs sq ->
  exists w',
    process_directory directory_path (Some the_connection) w
    = (Val (Some (snd (run_files e (rs, sq, zero)
                         (walk_files (os_walk e directory_path))))), w')
    /\ db w' = settled
                 (fst (fst (run_files e (rs, sq, zero)
                              (walk_files (os_walk e directory_path)))))
                 (snd (fst (run_files e (rs, sq, zero)
                              (walk_files (os_walk e directory_path)))))
    /\ static w' e.
Proof.
  intros Hs Hd. unfold process_directory, bind.
  set (w0 := snd (access (snd (logging_info
                 (Starting_processing_directory directory_path) w)))).
  assert (Hs0 : static w0 e) by (intros t; apply Hs).
  assert (Hd0 : db w0 = settled rs sq) by exact Hd.
  change (logging_info (Starting_processing_directory directory_path) w)
    with (Val tt, snd (logging_info
                         (Starting_processing_directory directory_path) w)).
  cbv iota beta.
  change (access (snd (logging_info
                         (Starting_processing_directory directory_path) w)))
    with (Val (env_at w (accesses w)), w0).
  cbv iota beta. rewrite Hs.
  destruct (process_walk_settled e (os_walk e directory_path) zero rs sq w0
              Hs0 Hd0) as (w1 & E & Hd1 & Hs1).
  fold zero. rewrite E. cbn.
  eexists. repeat split; cbn; auto.
Qed.

(** The arithmetic of a run: every file of the walk is counted once. *)
Lemma run_files_counts e fs :
  forall rs sq n,
    processed_count (snd (run_files e (rs, sq, n) fs))
    + duplicate_count (snd (run_files e (rs, sq, n) fs))
      = processed_count n + duplicate_count n
        + List.length (filter (is_extracted e) fs)
    /\ error_count (snd (run_files e (rs, sq, n) fs))
       = error_count n + List.length (filter (is_failed e) fs)
    /\ skipped_count (snd (run_files e (rs, sq, n) fs))
       = skipped_count n + List.length (filter (is_unsupported e) fs).
Proof.
  induction fs as [|f fs IH]; intros rs sq n.
  - cbn. lia.
  - rewrite run_files_cons. cbn [filter].
    unfold file_step, is_extracted, is_failed, is_unsupported in *.
    destruct (verdict_of e f) as [| |t]; cbn [List.length].
    + specialize (IH rs sq (bump_skipped n)). cbn in IH. lia.
    + specialize (IH rs sq (bump_error n)). cbn in IH. lia.
    + destruct (insert_step rs sq (os_path_join (fst f) (snd f))
                  (file_ext_of (snd f)) t) as [[[] rs'] sq'].
      * specialize (IH rs' sq' (bump_processed n)). cbn in IH. lia.
      * specialize (IH rs' sq' (bump_duplicate n)). cbn in IH. lia.
Qed.

Lemma path_stored_app p rs rs' :
  path_stored p (rs ++ rs') = path_stored p rs || path_stored p rs'.
Proof. unfold path_stored. apply existsb_app. Qed.

(** An insertion removes no path from the store. *)
Lemma insert_step_keeps rs sq q ext t p :
  path_stored p rs = true ->
  path_stored p (snd (fst (insert_step rs sq q ext t))) = true.
Proof.
  intros H. unfold insert_step.
  destruct (adaptable q ext t); [|exact H].
  destruct (varchar 10 ext); [|exact H].
  destruct (path_stored q rs); cbn [fst snd]; [exact H|].
  rewrite path_stored_app, H. reflexivity.
Qed.

(** A stored path stays stored: nothing deletes a record. *)
Lemma file_step_keeps e st f p :
  path_stored p (fst (fst st)) = true ->
  path_stored p (fst (fst (file_step e st f))) = true.
Proof.
  destruct st as [[rs sq] n]. unfold file_step. cbn [fst].
  destruct (verdict_of e f) as [| |t]; cbn [fst]; auto.
  intros H.
  pose proof (insert_step_keeps rs sq (os_path_join (fst f) (snd f))
                (file_ext_of (snd f)) t p H) as K.
  destruct (insert_step rs sq (os_path_join (fst f) (snd f))
              (file_ext_of (snd f)) t) as [[ins rs'] sq'].
  exact K.
Qed.

Lemma run_files_keeps e fs :
  forall st p, path_stored p (fst (fst st)) = true ->
               path_stored p (fst (fst (run_files e st fs))) = true.
Proof.
  induction fs as [|f fs IH]; intros st p H; [exact H|].
  rewrite run_files_cons. apply IH. now apply file_step_keeps.
Qed.

Lemma file_step_stores e st f :
  is_storable e f = true ->
  path_stored (os_path_join (fst f) (snd f)) (fst (fst (file_step e st f)))
  = true.
Proof.
  destruct st as [[rs sq] n]. unfold file_step, is_storable.
  pose proof (supported_fits (file_ext_of (snd f))) as Hfit.
  unfold verdict_of in *.
  destruct (in_set (file_ext_of (snd f)) SUPPORTED_EXTENSIONS);
    [|discriminate].
  destruct (extraction e (file_ext_of (snd f)) (os_path_join (fst f) (snd f)))
    as [t|]; [|discriminate].
  intros Ha. unfold insert_step. rewrite Ha, (Hfit eq_refl).
  destruct (path_stored (os_path_join (fst f) (snd f)) rs) eqn:Hp;
    cbn [fst]; auto.
  rewrite path_stored_app. unfold path_stored at 2. cbn.
  rewrite String.eqb_refl. apply orb_true_r.
Qed.

(** After a run, the path of every file that gave its text, and whose
    insertion the driver can write, is stored. *)
Lemma run_files_stores e fs :
  forall st f, In f fs -> is_storable e f = true ->
    path_stored (os_path_join (fst f) (snd f)) (fst (fst (run_files e st fs)))
    = true.
Proof.
  induction fs as [|g fs IH]; intros st f H Hx; [destruct H|].
  destruct H as [H|H].
  - subst g. rewrite run_files_cons. apply run_files_keeps.
    now apply file_step_stores.
  - rewrite run_files_cons. now apply IH.
Qed.

(** A run over files whose paths are all stored, where the driver can
    write them, inserts nothing. *)
Lemma run_files_fixed e fs :
  forall rs sq n,
    (forall f, In f fs -> is_storable e f = true ->
               path_stored (os_path_join (fst f) (snd f)) rs = true) ->
    fst (fst (run_files e (rs, sq, n) fs)) = rs
    /\ processed_count (snd (run_files e (rs, sq, n) fs)) = processed_count n.
Proof.
  induction fs as [|f fs IH]; intros rs sq n H; [auto|].
  rewrite run_files_cons. unfold file_step.
  pose proof (H f (or_introl eq_refl)) as Hf. unfold is_storable in Hf.
  assert (H' : forall g, In g fs -> is_storable e g = true ->
                 path_stored (os_path_join (fst g) (snd g)) rs = true)
    by (intros g Hg; apply H; now right).
  destruct (verdict_of e f) as [| |t].
  - apply (IH rs sq (bump_skipped n) H').
  - apply (IH rs sq (bump_error n) H').
  - unfold insert_step.
    destruct (adaptable (os_path_join (fst f) (snd f)) (file_ext_of (snd f)) t).
    + rewrite (Hf eq_refl).
      destruct (varchar 10 (file_ext_of (snd f))).
      * apply (IH rs (sq + 1)%Z (bump_duplicate n) H').
      * apply (IH rs sq (bump_duplicate n) H').
    + apply (IH rs sq (bump_duplicate n) H').
Qed.

(** ** The outcome of one file whose text cannot be extracted *)

Lemma process_file_extraction_failed conn root filename n (w w2 : world) :
  in_set (file_ext_of filename) SUPPORTED_EXTENSIONS = true ->
  (if String.eqb (file_ext_of filename) ".txt"
   then extract_text_from_txt (os_path_join root filename)
   else if String.eqb (file_ext_of filename) ".md"
   then extract_text_from_md (os_path_join root filename)
   else if String.eqb (file_ext_of filename) ".pdf"
   then extract_text_from_pdf (os_path_join root filename)
   else ret None)
    (snd (logging_info (Processing_file (os_path_join root filename)) w))
  = (Val None, w2) ->
  process_file conn root filename n w
  = (Val (bump_error n),
     snd (logging_warning (Could_not_extract_text (os_path_join root filename))
            w2)).
Proof.
  intros Hin E. unfold process_file, try_except, bind.
  fold (file_ext_of filename). rewrite Hin.
  change (logging_info (Processing_file (os_path_join root filename)) w)
    with (Val tt, snd (logging_info
                         (Processing_file (os_path_join root filename)) w)).
  cbv iota beta. rewrite E. reflexivity.
Qed.

Lemma process_files_cons conn root filename rest n n' (w w' : world) :
  process_file conn root filename n w = (Val n', w') ->
  process_files conn root (filename :: rest) n w
  = process_files conn root rest n' w'.
Proof. intros E. cbn. unfold bind. now rewrite E. Qed.

Lemma txt_value_None (e1 e2 : environment) (p : string) :
  txt_value e1 e2 p = None <->
  (exists s, read_bytes e1 p = IOFailure s)
  \/ (exists bs s, read_bytes e1 p = Bytes bs /\ utf8_decode bs = None
                   /\ read_bytes e2 p = IOFailure s).
Proof.
  unfold txt_value, decode_file.
  destruct (read_bytes e1 p) as [bs|s]; [|split; eauto].
  destruct (utf8_decode bs) as [t|] eqn:D; cbn.
  - split; [discriminate|].
    intros [(s & H)|(bs' & s & H & H' & _)]; [discriminate|].
    inversion H; subst. congruence.
  - destruct (read_bytes e2 p) as [bs'|s].
    + split; [discriminate|].
      intros [(s & H)|(b & s & _ & _ & H)]; discriminate.
    + split; [|reflexivity]. intros _. right. eauto.
Qed.

(** The second attempt is made after a decoding failure only. *)
Lemma extract_text_from_txt_attempts (p : string) (w : world) :
  attempts_made w p
  = match read_bytes (env_at w (accesses w)) p with
    | IOFailure _ => 1
    | Bytes bs =>
        match utf8_decode bs with
        | Some _ => 1
        | None => 2
        end
    end.
Proof.
  unfold attempts_made, extract_text_from_txt, try_except, bind, read_text,
    access, raise, ret.
  cbn -[Nat.sub].
  destruct (read_bytes (env_at w (accesses w)) p) as [bs|e]; cbn -[Nat.sub];
    [|lia].
  destruct (utf8_decode bs) as [t|]; cbn -[Nat.sub]; [lia|].
  destruct (read_bytes (env_at w (S (accesses w))) p) as [bs'|e'];
    cbn -[Nat.sub]; lia.
Qed.

(** C4, as the specification has it, fails: a file that cannot be
    opened gives the sentinel after the first attempt; the attempt in
    latin-1 is not made, and the one error logged is that of the first
    reading. *)
Lemma sentinel_after_one_attempt :
  ~ sentinel_only_if_both_attempts_fail first_run "docs/missing.txt"
  /\ fst (extract_text_from_txt "docs/missing.txt" first_run) = Val None
  /\ attempts_made first_run "docs/missing.txt" = 1
  /\ log (snd (extract_text_from_txt "docs/missing.txt" first_run))
     = [(ERROR, Error_reading_TXT "docs/missing.txt"
                  (PyExc OSError "No such file or directory"))].
Proof.
  split; [|repeat split].
  intros H. specialize (H eq_refl). discriminate H.
Qed.

(** C4, amended.  For a file whose extension is .txt or .md, the
    extraction of .md is that of .txt; it never raises; its value is the
    UTF-8 reading of the file where that decodes, else the latin-1
    reading of a second access.  It is the failure sentinel where the
    first attempt fails to read the file, and then no second attempt is
    made, or where the bytes are not UTF-8 and the second attempt fails
    to read the file, and in no other case; and where it is the sentinel
    the loop counts an error, leaves the store alone and goes on with
    the files that are left. *)
Theorem txt_md_extraction_falls_back_to_latin1
    (w : world) (conn : option conn_handle) (root filename : string)
    (rest : list string) (n : counters) :
  in_set (file_ext_of filename) [".txt"; ".md"]%string = true ->
  let p := os_path_join root filename in
  let e1 := env_at w (accesses w) in
  let e2 := env_at w (S (accesses w)) in
  extract_text_from_md p w = extract_text_from_txt p w
  /\ fst (extract_text_from_txt p w) = Val (txt_value e1 e2 p)
  /\ (forall bs t, read_bytes e1 p = Bytes bs -> utf8_decode bs = Some t ->
        txt_value e1 e2 p = Some (universal_newlines t))
  /\ (forall bs bs', read_bytes e1 p = Bytes bs -> utf8_decode bs = None ->
        read_bytes e2 p = Bytes bs' ->
        txt_value e1 e2 p = Some (universal_newlines (latin1_decode bs')))
  /\ (txt_value e1 e2 p = None <->
      (exists s, read_bytes e1 p = IOFailure s)
      \/ (exists bs s, read_bytes e1 p = Bytes bs /\ utf8_decode bs = None
                       /\ read_bytes e2 p = IOFailure s))
  /\ (forall s, read_bytes e1 p = IOFailure s -> attempts_made w p = 1)
  /\ (forall bs, read_bytes e1 p = Bytes bs -> utf8_decode bs = None ->
        attempts_made w p = 2)
  /\ (txt_value e1 e2 p = None ->
      exists w',
        process_file conn root filename n w = (Val (bump_error n), w')
        /\ db w' = db w
        /\ process_files conn root (filename :: rest) n w
           = process_files conn root rest (bump_error n) w').
Proof.
  intros Hext p e1 e2.
  split; [reflexivity|].
  split.
  { destruct (extract_text_from_txt_value p w) as (w' & E & _). now rewrite E. }
  split.
  { intros bs t R D. unfold txt_value, decode_file. now rewrite R, D. }
  split.
  { intros bs bs' R D R'. unfold txt_value, decode_file. now rewrite R, D, R'. }
  split; [apply txt_value_None|].
  split.
  { intros s R. rewrite extract_text_from_txt_attempts. fold e1. now rewrite R. }
  split.
  { intros bs R D. rewrite extract_text_from_txt_attempts. fold e1.
    now rewrite R, D. }
  intros Hnone.
  set (w1 := snd (logging_info (Processing_file p) w)).
  destruct (extract_text_from_txt_value p w1) as (w2 & E & Hd & _).
  change (env_at w1 (accesses w1)) with e1 in E.
  change (env_at w1 (S (accesses w1))) with e2 in E.
  rewrite Hnone in E.
  assert (Hin : in_set (file_ext_of filename) SUPPORTED_EXTENSIONS = true).
  { unfold in_set in *. cbn in *.
    destruct (String.eqb (file_ext_of filename) ".txt"); [reflexivity|].
    destruct (String.eqb (file_ext_of filename) ".md"); [|discriminate].
    apply orb_true_r. }
  assert (Hc : (if String.eqb (file_ext_of filename) ".txt"
                then extract_text_from_txt (os_path_join root filename)
                else if String.eqb (file_ext_of filename) ".md"
                then extract_text_from_md (os_path_join root filename)
                else if String.eqb (file_ext_of filename) ".pdf"
                then extract_text_from_pdf (os_path_join root filename)
                else ret None) w1 = (Val None, w2)).
  { unfold in_set in Hext. cbn in Hext. unfold extract_text_from_md.
    destruct (String.eqb (file_ext_of filename) ".txt"); [exact E|].
    destruct (String.eqb (file_ext_of filename) ".md"); [exact E|discriminate]. }
  pose proof (process_file_extraction_failed conn root filename n w w2 Hin Hc)
    as Hpf.
  eexists. split; [exact Hpf|]. split; [exact Hd|].
  now apply process_files_cons.
Qed.

Lemma txt_md_extraction_falls_back_to_latin1_witness :
  fst (extract_text_from_txt "notes/cafe.txt" (world_of cafe (settled [] 1)))
  = Val (Some [0x63; 0x61; 0x66; 0xE9]%N)
  /\ attempts_made (world_of cafe (settled [] 1)) "notes/cafe.txt" = 2.
Proof.
  destruct (txt_md_extraction_falls_back_to_latin1
              (world_of cafe (settled [] 1)) (Some the_connection)
              "notes" "cafe.txt" [] zero eq_refl)
    as (_ & H & _ & L & _ & _ & A & _).
  split.
  - etransitivity; [exact H|]. apply f_equal.
    exact (L [x63; x61; x66; xe9] [x63; x61; x66; xe9] eq_refl eq_refl eq_refl).
  - exact (A [x63; x61; x66; xe9] eq_refl eq_refl).
Defined.

Lemma extract_text_from_txt_log (p : string) (w : world) :
  log (snd (extract_text_from_txt p w))
  = (log w ++ txt_log (env_at w (accesses w)) (env_at w (S (accesses w))) p)%list.
Proof.
  unfold extract_text_from_txt, txt_log, try_except, bind, read_text, access,
    raise, ret.
  cbn.
  destruct (read_bytes (env_at w (accesses w)) p) as [bs|e]; cbn;
    [|reflexivity].
  destruct (utf8_decode bs) as [t|]; cbn; [now rewrite app_nil_r|].
  destruct (read_bytes (env_at w (S (accesses w))) p) as [bs'|e']; cbn.
  - reflexivity.
  - now rewrite <- app_assoc.
Qed.

(** C10. The latin-1 reading is defined on every sequence of bytes; so
    for a file that every access can read, the extraction of .txt and of
    .md gives a text, never the failure sentinel, and the error of the
    branch where both readings fail is not logged: what the extraction
    logs is at most the warning that UTF-8 failed. *)
Theorem latin1_fallback_decodes_every_file (w : world) (p : string) :
  (forall t, exists bs, read_bytes (env_at w t) p = Bytes bs) ->
  let e1 := env_at w (accesses w) in
  let e2 := env_at w (S (accesses w)) in
  (forall bs, decode_file latin_1 bs
              = Some (universal_newlines (latin1_decode bs)))
  /\ (exists t, fst (extract_text_from_txt p w) = Val (Some t)
                /\ fst (extract_text_from_md p w) = Val (Some t))
  /\ log (snd (extract_text_from_txt p w)) = (log w ++ txt_log e1 e2 p)%list
  /\ (txt_log e1 e2 p = [] \/ txt_log e1 e2 p = [(WARNING, UTF8_decoding_failed p)])
  /\ (forall e, ~ In (ERROR, Could_not_read_TXT_even_with_fallback p e)
                     (txt_log e1 e2 p)).
Proof.
  intros Hread e1 e2.
  destruct (Hread (accesses w)) as (bs1 & R1).
  destruct (Hread (S (accesses w))) as (bs2 & R2).
  fold e1 in R1. fold e2 in R2.
  assert (Hlog : txt_log e1 e2 p = []
                 \/ txt_log e1 e2 p = [(WARNING, UTF8_decoding_failed p)]).
  { unfold txt_log. rewrite R1, R2.
    destruct (decode_file utf_8 bs1); auto. }
  split; [reflexivity|].
  split.
  { destruct (extract_text_from_txt_value p w) as (w' & E & _).
    unfold extract_text_from_md. rewrite E. cbn [fst].
    fold e1 e2. unfold txt_value. rewrite R1, R2.
    destruct (decode_file utf_8 bs1) as [t|]; eexists; split; reflexivity. }
  split; [apply extract_text_from_txt_log|].
  split; [exact Hlog|].
  intros e Hin. destruct Hlog as [H|H]; rewrite H in Hin.
  - destruct Hin.
  - destruct Hin as [Hin|[]]. discriminate.
Qed.

Lemma latin1_fallback_decodes_every_file_witness :
  exists t,
    fst (extract_text_from_txt "notes/cafe.txt" (world_of cafe (settled [] 1)))
    = Val (Some t)
    /\ fst (extract_text_from_md "notes/cafe.txt" (world_of cafe (settled [] 1)))
       = Val (Some t).
Proof.
  refine (proj1 (proj2 (latin1_fallback_decodes_every_file
                          (world_of cafe (settled [] 1)) "notes/cafe.txt" _))).
  intros t. eexists. reflexivity.
Defined.

(** C5. For a file whose extension is .pdf the extraction never raises.
    Its value is the failure sentinel where the document is encrypted
    and the empty password is refused; otherwise the texts of the pages
    joined in page order; and the sentinel where the document cannot be
    opened or a page cannot be read.  Where it is the sentinel the loop
    counts an error, leaves the store alone and goes on with the files
    that are left. *)
Theorem pdf_extraction_skips_or_concatenates
    (w : world) (conn : option conn_handle) (root filename : string)
    (rest : list string) (n : counters) :
  file_ext_of filename = ".pdf"%string ->
  let p := os_path_join root filename in
  let e := env_at w (accesses w) in
  fst (extract_text_from_pdf p w) = Val (pdf_value e p)
  /\ (forall doc, fitz_open e p = Val doc ->
        is_encrypted doc = true -> authenticate doc "" = 0%Z ->
        pdf_value e p = None)
  /\ (forall doc ts, fitz_open e p = Val doc ->
        is_encrypted doc = false \/ authenticate doc "" <> 0%Z ->
        pages doc = map Val ts ->
        pdf_value e p = Some (List.concat ts))
  /\ (forall x, fitz_open e p = Exc x -> pdf_value e p = None)
  /\ (forall doc, fitz_open e p = Val doc -> pages_text (pages doc) = None ->
        pdf_value e p = None)
  /\ (pdf_value e p = None ->
      exists w',
        process_file conn root filename n w = (Val (bump_error n), w')
        /\ db w' = db w
        /\ process_files conn root (filename :: rest) n w
           = process_files conn root rest (bump_error n) w').
Proof.
  intros Hext p e.
  split.
  { destruct (extract_text_from_pdf_value p w) as (w' & E & _). now rewrite E. }
  split.
  { intros doc Ho He Ha. unfold pdf_value. now rewrite Ho, He, Ha. }
  split.
  { intros doc ts Ho Hk Hp. unfold pdf_value. rewrite Ho, Hp.
    rewrite pages_text_all_read.
    destruct Hk as [Hk|Hk]; [now rewrite Hk|].
    apply Z.eqb_neq in Hk. rewrite Hk. now rewrite andb_false_r. }
  split.
  { intros x Ho. unfold pdf_value. now rewrite Ho. }
  split.
  { intros doc Ho Hp. unfold pdf_value. rewrite Ho, Hp.
    now destruct (is_encrypted doc && (authenticate doc "" =? 0)%Z). }
  intros Hnone.
  set (w1 := snd (logging_info (Processing_file p) w)).
  destruct (extract_text_from_pdf_value p w1) as (w2 & E & Hd & _).
  change (env_at w1 (accesses w1)) with e in E.
  rewrite Hnone in E.
  assert (Hin : in_set (file_ext_of filename) SUPPORTED_EXTENSIONS = true)
    by (rewrite Hext; reflexivity).
  assert (Hc : (if String.eqb (file_ext_of filename) ".txt"
                then extract_text_from_txt (os_path_join root filename)
                else if String.eqb (file_ext_of filename) ".md"
                then extract_text_from_md (os_path_join root filename)
                else if String.eqb (file_ext_of filename) ".pdf"
                then extract_text_from_pdf (os_path_join root filename)
                else ret None) w1 = (Val None, w2))
    by (rewrite Hext; exact E).
  pose proof (process_file_extraction_failed conn root filename n w w2 Hin Hc)
    as Hpf.
  eexists. split; [exact Hpf|]. split; [exact Hd|].
  now apply process_files_cons.
Qed.

Lemma pdf_extraction_skips_or_concatenates_witness :
  fst (extract_text_from_pdf "notes/two.pdf" (world_of cafe (settled [] 1)))
  = Val (Some [0x6f; 0x6e; 0x65; 0x74; 0x77; 0x6f]%N)
  /\ exists w',
       process_file (Some the_connection) "docs" "b.pdf" zero first_run
       = (Val (bump_error zero), w')
       /\ db w' = db first_run
       /\ process_files (Some the_connection) "docs" ["b.pdf"; "c.md"]%string
            zero first_run
          = process_files (Some the_connection) "docs" ["c.md"]%string
              (bump_error zero) w'.
Proof.
  split.
  - destruct (pdf_extraction_skips_or_concatenates
                (world_of cafe (settled [] 1)) (Some the_connection)
                "notes" "two.pdf" [] zero eq_refl) as (H & _ & C & _).
    etransitivity; [exact H|]. apply f_equal.
    exact (C _ [[0x6f; 0x6e; 0x65]; [0x74; 0x77; 0x6f]]%N eq_refl
             (or_introl eq_refl) eq_refl).
  - destruct (pdf_extraction_skips_or_concatenates
                first_run (Some the_connection)
                "docs" "b.pdf" ["c.md"%string] zero eq_refl)
      as (_ & _ & _ & _ & _ & H).
    exact (H eq_refl).
Defined.

(** ** Insertion *)

(** An insertion sends one statement, whatever comes of it; where the
    driver refuses a parameter it sends none. *)
Lemma insert_file_data_one_statement p ext t (w : world) :
  closed (db w) = false ->
  faults (db (snd (insert_file_data (Some the_connection) p ext t w)))
  = if adaptable p ext t then tl (faults (db w)) else faults (db w).
Proof.
  destruct w as [[tb sq tx cl fs] l a ev]. cbn [db closed]. intros ->.
  unfold insert_file_data, try_except, bind, on_db, cursor, execute, commit,
    rollback, adaptable.
  cbn [db closed set_db].
  destruct (adapt (InsertOnConflictDoNothing p ext t)) as [x|];
    [reflexivity|].
  cbn.
  destruct fs as [|[[m|m]|] fs]; cbn; try reflexivity.
  all: destruct tx; cbn; try reflexivity.
  all: destruct tb as [rs|]; cbn; try reflexivity.
  all: destruct (varchar 10 ext); cbn; try reflexivity.
  all: destruct (path_stored p rs); reflexivity.
Qed.

(** The server refuses the statement: the error is logged, the
    transaction rolled back, and the caller is told [False], as for a
    duplicate. *)
Lemma insert_file_data_refused p ext t msg fs (w : world) :
  adaptable p ext t = true ->
  closed (db w) = false -> faults (db w) = Some (StatementFault msg) :: fs ->
  insert_file_data (Some the_connection) p ext t w
  = (Val false,
     mkWorld (mkConnection (snapshot_of (db w)) (sequences (db w)) Idle false fs)
       (log w ++ [(ERROR, Error_inserting_data p (PyExc DatabaseError msg))])
       (accesses w) (env_at w)).
Proof.
  destruct w as [[tb sq tx cl fs'] l a ev]. cbn [db closed faults].
  intros Ha -> ->.
  unfold insert_file_data, try_except, bind, on_db, cursor, execute, rollback.
  cbn [db closed set_db]. unfold adaptable in Ha.
  destruct (adapt (InsertOnConflictDoNothing p ext t)) as [x|];
    [discriminate|].
  cbn. now destruct tx.
Qed.

(** An insertion of a stored path on a usable connection. *)
Lemma insert_file_data_duplicate p ext t rs (w : world) :
  closed (db w) = false -> txn (db w) = Idle ->
  hd None (faults (db w)) = None -> table (db w) = Some rs ->
  path_stored p rs = true ->
  exists w',
    insert_file_data (Some the_connection) p ext t w = (Val false, w')
    /\ table (db w') = Some rs /\ txn (db w') = Idle
    /\ log w' = (log w ++ [duplicate_record p ext t])%list.
Proof.
  destruct w as [[tb sq tx cl fs] l a ev]. cbn [db closed txn faults table log].
  intros -> -> Hf -> Hp.
  unfold insert_file_data, try_except, bind, on_db, cursor, execute, commit,
    rollback, duplicate_record.
  cbn [db closed set_db].
  destruct (adapt (InsertOnConflictDoNothing p ext t)) as [x|].
  - cbn. eexists. repeat split.
  - cbn. rewrite Hf. cbn.
    destruct (varchar 10 ext) as [ext'|]; cbn.
    + rewrite Hp. cbn. eexists. repeat split.
    + eexists. repeat split.
Qed.

(** An extension of more than ten characters: the statement is sent,
    the server refuses it, and the insertion returns [False] with the
    transaction rolled back. *)
Example extension_too_long_is_refused :
  fst (insert_file_data (Some the_connection) "docs/n.md" ".markdown12"
         [0x61%N] first_run)
  = Val false
  /\ db (snd (insert_file_data (Some the_connection) "docs/n.md" ".markdown12"
                [0x61%N] first_run))
     = db first_run
  /\ log (snd (insert_file_data (Some the_connection) "docs/n.md"
                 ".markdown12" [0x61%N] first_run))
     = [(ERROR, Error_inserting_data "docs/n.md"
                  (PyExc DataError
                     "value too long for type character varying(10)"))].
Proof. repeat split. Qed.

(** C2, as the specification has it, fails: for a stored path and a
    content that holds the character NUL, the insertion is a no-op that
    returns [False], but nothing is sent and what is logged is the error
    of the driver, not the duplicate. *)
Lemma stored_path_can_be_reported_as_error :
  ~ reports_the_duplicate later_run "docs/a.txt" ".txt" [0x61; 0; 0x62]%N
  /\ insert_file_data (Some the_connection) "docs/a.txt" ".txt"
       [0x61; 0; 0x62]%N later_run
     = (Val false,
        mkWorld (db later_run)
          [(ERROR, Error_inserting_data "docs/a.txt" NUL_refused)]
          0 (env_at later_run)).
Proof.
  split; [|reflexivity].
  intros H. specialize (H eq_refl). discriminate H.
Qed.

(** C2, amended.  From a store whose paths are unique, after any
    sequence of calls of [setup_database], [insert_file_data] and
    [process_directory], and whatever fails on the way, at most one
    record has a given path.  An
    insertion sends one statement at most: one where the driver can
    write its parameters, none where it cannot.  For a path that is
    stored, on a usable connection, it returns [False] without raising
    and leaves the records as they are, whatever the extension and the
    content; where the driver and the column [file_extension] accept
    them, what it logs is the duplicate, at level INFO, and an error
    otherwise. *)
Theorem duplicate_insert_is_a_reported_noop
    (w : world) (ks : list call) (p ext : string) (t : text) (rs : list row) :
  unique_paths (db w) ->
  (forall P, records_with_path P (db (run_calls ks w)) <= 1)
  /\ (closed (db w) = false ->
      faults (db (snd (insert_file_data (Some the_connection) p ext t w)))
      = if adaptable p ext t then tl (faults (db w)) else faults (db w))
  /\ (closed (db w) = false -> txn (db w) = Idle ->
      hd None (faults (db w)) = None -> table (db w) = Some rs ->
      path_stored p rs = true ->
      exists w',
        insert_file_data (Some the_connection) p ext t w = (Val false, w')
        /\ rows (db w') = rs
        /\ txn (db w') = Idle
        /\ (adaptable p ext t = true -> varchar 10 ext <> None ->
            log w' = (log w ++ [(INFO, Skipped_duplicate_file p)])%list)
        /\ (adaptable p ext t = false \/ varchar 10 ext = None ->
            exists e,
              log w' = (log w ++ [(ERROR, Error_inserting_data p e)])%list)).
Proof.
  intros Hu. split; [|split].
  - intros P. unfold records_with_path, rows.
    destruct (unique_run_calls ks w Hu) as [H _]. unfold paths in H.
    destruct (table (db (run_calls ks w))) as [rs'|]; [|cbn; lia].
    now apply at_most_one_record.
  - apply insert_file_data_one_statement.
  - intros Hc Ht Hf Htb Hp.
    destruct (insert_file_data_duplicate p ext t rs w Hc Ht Hf Htb Hp)
      as (w' & Ew & Htb' & Ht' & Hl).
    exists w'. split; [exact Ew|]. split; [unfold rows; now rewrite Htb'|].
    split; [exact Ht'|].
    unfold duplicate_record, adaptable in *.
    destruct (adapt (InsertOnConflictDoNothing p ext t)) as [x|].
    + split; [discriminate|]. intros _. now exists x.
    + destruct (varchar 10 ext) as [ext'|].
      * split; [intros _ _; exact Hl|]. intros [H|H]; discriminate.
      * split; [intros _ H; now destruct H|]. intros _. eauto.
Qed.

Lemma duplicate_insert_is_a_reported_noop_witness :
  (forall P,
     records_with_path P
       (db (run_calls [Process_directory "docs"; Process_directory "docs";
                       Insert_file_data "docs/a.txt" ".txt" []]%string
              later_run)) <= 1)
  /\ exists w',
       insert_file_data (Some the_connection) "docs/a.txt" ".txt" [] later_run
       = (Val false, w')
       /\ rows (db w') = rows (db later_run)
       /\ txn (db w') = Idle
       /\ log w' = [(INFO, Skipped_duplicate_file "docs/a.txt")].
Proof.
  assert (Hu : unique_paths (db later_run)).
  { split; cbn; repeat constructor; cbn; intuition discriminate. }
  split.
  - exact (proj1 (duplicate_insert_is_a_reported_noop later_run
                    [Process_directory "docs"; Process_directory "docs";
                     Insert_file_data "docs/a.txt" ".txt" []]%string
                    "docs/a.txt" ".txt" [] (rows (db later_run)) Hu)).
  - destruct (proj2 (proj2 (duplicate_insert_is_a_reported_noop later_run []
                              "docs/a.txt" ".txt" [] (rows (db later_run)) Hu))
                eq_refl eq_refl eq_refl eq_refl eq_refl)
      as (w' & Ew & Hr & Ht & Hl & _).
    exists w'. split; [exact Ew|]. split; [exact Hr|]. split; [exact Ht|].
    apply Hl; [reflexivity|discriminate].
Defined.

(** In general: a file that gives its text, and whose insertion the
    server refuses, is counted with the duplicates; the transaction is
    rolled back and the connection is ready for the next file. *)
Lemma refused_insert_bumps_duplicate e root filename t msg fs n (w : world) :
  static w e -> closed (db w) = false ->
  faults (db w) = Some (StatementFault msg) :: fs ->
  verdict_of e (root, filename) = Extracted t ->
  adaptable (os_path_join root filename) (file_ext_of filename) t = true ->
  exists w',
    process_file (Some the_connection) root filename n w
    = (Val (bump_duplicate n), w')
    /\ db w' = mkConnection (snapshot_of (db w)) (sequences (db w)) Idle false fs.
Proof.
  intros Hs Hc Hf Hv Ha.
  unfold verdict_of in Hv. cbn [fst snd] in Hv.
  destruct (in_set (file_ext_of filename) SUPPORTED_EXTENSIONS) eqn:Hin;
    [|discriminate].
  destruct (extraction e (file_ext_of filename) (os_path_join root filename))
    as [t'|] eqn:Hx; [|discriminate].
  injection Hv as ->.
  unfold process_file, try_except, bind. fold (file_ext_of filename).
  rewrite Hin.
  set (w1 := snd (logging_info (Processing_file (os_path_join root filename)) w)).
  change (logging_info (Processing_file (os_path_join root filename)) w)
    with (Val tt, w1).
  cbv iota beta.
  assert (Hs1 : static w1 e) by (intros k; apply Hs).
  destruct (content_value e (file_ext_of filename)
              (os_path_join root filename) w1 Hs1) as (w2 & E2 & Hd2 & _).
  rewrite E2, Hx.
  assert (Hd : db w2 = db w) by exact Hd2.
  rewrite (insert_file_data_refused (os_path_join root filename)
             (file_ext_of filename) t msg fs w2)
    by (try rewrite Hd; assumption).
  eexists. split; [reflexivity|]. cbn. now rewrite Hd.
Qed.

(** C1 (the program departs from it).  The scenario's directory, when
    the server refuses the statement that inserts [a.txt]: the run goes
    on, the transaction is rolled back and [c.md] is inserted after it;
    but [a.txt] is counted with the duplicates, and the only error
    counted is the encrypted [b.pdf]. *)
Theorem refused_insert_is_counted_as_duplicate :
  fst (process_directory "docs" (Some the_connection) refused_insert)
  = Val (Some (mkCounters 1 0 1 1))
  /\ db (snd (process_directory "docs" (Some the_connection) refused_insert))
     = settled [mkRow 1 "docs/c.md" ".md"
                  (latin1_decode (ascii_bytes "hello md"))] 2
  /\ log (snd (process_directory "docs" (Some the_connection) refused_insert))
     = [(INFO, Starting_processing_directory "docs");
        (INFO, Processing_file "docs/a.txt");
        (ERROR, Error_inserting_data "docs/a.txt"
                  (PyExc DatabaseError
                     "could not extend file: No space left on device"));
        (INFO, Processing_file "docs/b.pdf");
        (WARNING, Skipping_password_protected_PDF "docs/b.pdf");
        (WARNING, Could_not_extract_text "docs/b.pdf");
        (INFO, Processing_file "docs/c.md");
        (INFO, Summary_header);
        (INFO, Summary_processed 1);
        (INFO, Summary_skipped 0);
        (INFO, Summary_duplicate 1);
        (INFO, Summary_errors 1);
        (INFO, Summary_footer)].
Proof. split; [|split]; vm_compute; reflexivity. Qed.

(** ** Two runs in a row *)

(** C6, as the specification has it, fails: on a store that already
    holds the files of the directory the second run counts two
    duplicates where the first inserted nothing; and after a run in
    which the server refused an insertion, the second run inserts the
    file and the records are not those of the first. *)
Lemma second_run_need_not_repeat_first :
  ~ second_run_repeats_first later_run "docs"
  /\ ~ second_run_repeats_first refused_insert "docs".
Proof.
  split; intros H.
  - set (r1 := process_directory "docs" (Some the_connection) later_run).
    set (r2 := process_directory "docs" (Some the_connection) (snd r1)).
    assert (F1 : fst r1 = Val (Some (mkCounters 0 0 1 2)))
      by (vm_compute; reflexivity).
    assert (F2 : fst r2 = Val (Some (mkCounters 0 0 1 2)))
      by (vm_compute; reflexivity).
    specialize (H (mkCounters 0 0 1 2) (snd r1) (mkCounters 0 0 1 2) (snd r2)).
    fold r1 r2 in H. rewrite <- F1 in H at 1. rewrite <- F2 in H.
    rewrite <- !surjective_pairing in H.
    destruct (H eq_refl eq_refl) as (_ & D & _). discriminate D.
  - set (r1 := process_directory "docs" (Some the_connection) refused_insert).
    set (r2 := process_directory "docs" (Some the_connection) (snd r1)).
    assert (F1 : fst r1 = Val (Some (mkCounters 1 0 1 1)))
      by (vm_compute; reflexivity).
    assert (F2 : fst r2 = Val (Some (mkCounters 1 0 1 1)))
      by (vm_compute; reflexivity).
    specialize (H (mkCounters 1 0 1 1) (snd r1) (mkCounters 1 0 1 1) (snd r2)).
    fold r1 r2 in H. rewrite <- F1 in H at 1. rewrite <- F2 in H.
    rewrite <- !surjective_pairing in H.
    destruct (H eq_refl eq_refl) as (_ & _ & D). discriminate D.
Qed.

(** C6, amended.  In a file system that does not change, on a connection
    on which no statement fails, of two runs over the same directory the
    second leaves the records of the first, inserts nothing, and counts
    as duplicates what the first inserted or counted as duplicates; its
    errors and its skipped files are those of the first. *)
Theorem second_run_inserts_nothing (w : world) (directory_path : string)
    (e : environment) (rs : list row) (sq : Z) :
  static w e -> db w = settled rs sq ->
  exists n1 w1 n2 w2,
    process_directory directory_path (Some the_connection) w
    = (Val (Some n1), w1)
    /\ process_directory directory_path (Some the_connection) w1
       = (Val (Some n2), w2)
    /\ rows (db w2) = rows (db w1)
    /\ processed_count n2 = 0
    /\ duplicate_count n2 = processed_count n1 + duplicate_count n1
    /\ error_count n2 = error_count n1
    /\ skipped_count n2 = skipped_count n1.
Proof.
  intros Hs Hd.
  destruct (process_directory_settled e directory_path rs sq w Hs Hd)
    as (w1 & E1 & Hd1 & Hs1).
  set (fs := walk_files (os_walk e directory_path)) in *.
  destruct (run_files e (rs, sq, zero) fs) as [[rs1 sq1] n1] eqn:R1.
  cbn [fst snd] in *.
  destruct (process_directory_settled e directory_path rs1 sq1 w1 Hs1 Hd1)
    as (w2 & E2 & Hd2 & _).
  fold fs in E2, Hd2.
  exists n1, w1, (snd (run_files e (rs1, sq1, zero) fs)), w2.
  split; [exact E1|]. split; [exact E2|].
  assert (Hst : forall f, In f fs -> is_storable e f = true ->
                  path_stored (os_path_join (fst f) (snd f)) rs1 = true).
  { intros f Hf Hx.
    pose proof (run_files_stores e fs (rs, sq, zero) f Hf Hx) as H.
    now rewrite R1 in H. }
  destruct (run_files_fixed e fs rs1 sq1 zero Hst) as (Hrs & Hpc).
  pose proof (run_files_counts e fs rs sq zero) as C1.
  pose proof (run_files_counts e fs rs1 sq1 zero) as C2.
  rewrite R1 in C1. cbn [snd] in C1.
  rewrite Hd2, Hd1. unfold rows, settled. cbn [table].
  rewrite Hrs. cbn in *. repeat split; lia.
Qed.

Lemma second_run_inserts_nothing_witness :
  exists n1 w1 n2 w2,
    process_directory "docs" (Some the_connection) first_run
    = (Val (Some n1), w1)
    /\ process_directory "docs" (Some the_connection) w1 = (Val (Some n2), w2)
    /\ rows (db w2) = rows (db w1)
    /\ processed_count n2 = 0
    /\ duplicate_count n2 = processed_count n1 + duplicate_count n1
    /\ error_count n2 = error_count n1
    /\ skipped_count n2 = skipped_count n1.
Proof.
  apply (second_run_inserts_nothing first_run "docs" scenario [] 1).
  - intros t. reflexivity.
  - reflexivity.
Defined.

End ParseFacts.

(** * Facts about search_pkm.py *)

Module SearchFacts.
Import Psycopg2 SearchPkm.

Section WithEngine.
Context {E : engine}.

Lemma eqb_empty_false (s : string) : s <> ""%string -> String.eqb s "" = false.
Proof. intros H. now apply String.eqb_neq. Qed.


(** The constants among the parameters hold no NUL: the driver refuses
    a statement of [build_query] for its query string only. *)
Lemma adapt_build_query (query_string language : string) (limit : Z)
    (stmt : statement) :
  build_query query_string language limit = Some stmt ->
  adapt stmt = adapt_str query_string.
Proof.
  unfold build_query.
  destruct (String.eqb language "english");
    [|destruct (String.eqb language "russian");
      [|destruct (String.eqb language "simple");
        [|destruct (String.eqb language "both"); [|discriminate]]]].
  all: intros H; injection H as <-.
  all: unfold adapt, adapt_statement; cbn [map adapt_param].
  all: change (adapt_str FTS_CONFIG_EN) with (@None exn).
  all: change (adapt_str FTS_CONFIG_RU) with (@None exn).
  all: change (adapt_str FTS_CONFIG_SIMPLE) with (@None exn).
  all: change (adapt_str HEADLINE_OPTIONS) with (@None exn).
  all: change (first_refusal (map adapt_str SUPPORTED_EXTENSIONS))
         with (@None exn).
  all: cbn [first_refusal].
  all: destruct (adapt_str query_string); reflexivity.
Qed.









Lemma build_query_valid (query_string language : string) (limit : Z) :
  in_set language valid_languages
  = match build_query query_string language limit with
    | Some _ => true
    | None => false
    end.
Proof.
  unfold build_query, in_set, valid_languages. cbn [existsb].
  destruct (String.eqb language "english"); [reflexivity|].
  destruct (String.eqb language "russian"); [reflexivity|].
  destruct (String.eqb language "both");
    destruct (String.eqb language "simple"); reflexivity.
Qed.

Lemma search_failed_returns_None conn query e (w : world) :
  exists w', search_failed conn query e w = (Val None, w')
             /\ db w' = db w /\ stdout w' = stdout w.
Proof.
  unfold search_failed, bind, get, try_except, mogrify.
  destruct (is_psycopg2_Error e), query as [q|], conn as [h|];
    try destruct (closed (db w)); try destruct (adapt q);
    cbn; eexists; repeat split.
Qed.

Lemma search_documents_runs (w : world) (query_string language : string)
    (limit : Z) (stmt : statement) :
  query_string <> ""%string ->
  build_query query_string language limit = Some stmt ->
  closed (db w) = false ->
  search_documents (Some the_connection) query_string language limit w
  = match execute run_statement stmt (db w) with
    | (Val results, c) =>
        (Val (Some results),
         logged INFO (Found_results (List.length results) query_string language)
           (set_db c w))
    | (Exc e, c) =>
        search_failed (Some the_connection) (Some stmt) e (set_db c w)
    end.
Proof.
  intros Hq Hb Hc.
  unfold search_documents. rewrite (eqb_empty_false _ Hq).
  rewrite (build_query_valid query_string language limit), Hb.
  cbn [negb]. unfold bind at 1. unfold try_except at 1, bind at 1.
  unfold conn_cursor, on_db, cursor. rewrite Hc.
  assert (Hw : set_db (db w) w = w) by now destruct w.
  rewrite Hw. cbn [ret]. unfold try_except, bind, mogrify.
  destruct (adapt stmt) as [x|] eqn:Ha.
  - unfold raise, execute. rewrite Hc, Ha, Hw. reflexivity.
  - unfold ret.
    change (logging_debug (Executing_search_query language stmt) w)
      with (Val tt, w).
    cbv iota beta. unfold on_db.
    destruct (execute run_statement stmt (db w)) as [[results|e] c];
      reflexivity.
Qed.



(** C7. A search with the empty query string returns the empty list
    whatever the connection handle, the state of the connection, the
    language and the limit; it adds a warning to the log and leaves the
    connection, with the statements still to be sent, as it was. *)
Theorem empty_query_is_rejected_without_a_statement
    (conn : option conn_handle) (language : string) (limit : Z) (w : world) :
  search_documents conn "" language limit w
  = (Val (Some []), logged WARNING Search_query_cannot_be_empty w)
  /\ db (logged WARNING Search_query_cannot_be_empty w) = db w.
Proof. split; reflexivity. Qed.

Lemma unsupported_language_rejected_value
    (conn : option conn_handle) (query_string language : string) (limit : Z)
    (w : world) :
  query_string <> ""%string -> in_set language valid_languages = false ->
  exists w', search_documents conn query_string language limit w
             = (Val None, w').
Proof.
  intros Hq Hl. unfold search_documents.
  rewrite (eqb_empty_false _ Hq), Hl. eexists. reflexivity.
Qed.

(** C8. For a language outside the four supported ones no statement is
    built, and the search returns before it touches the connection: an
    empty query is rejected as such, any other query gets [None], the
    value of a failure, and the language is logged as an error. *)
Theorem unsupported_language_is_rejected
    (conn : option conn_handle) (query_string language : string) (limit : Z)
    (w : world) :
  in_set language valid_languages = false ->
  build_query query_string language limit = None
  /\ search_documents conn query_string language limit w
     = (if String.eqb query_string ""
        then (Val (Some []), logged WARNING Search_query_cannot_be_empty w)
        else (Val None, logged ERROR (Invalid_language_specified language) w))
  /\ db (snd (search_documents conn query_string language limit w)) = db w.
Proof.
  intros Hl.
  assert (Hb : build_query query_string language limit = None).
  { pose proof (build_query_valid query_string language limit) as H.
    rewrite Hl in H. now destruct (build_query query_string language limit). }
  assert (Hs : search_documents conn query_string language limit w
               = (if String.eqb query_string ""
                  then (Val (Some []),
                        logged WARNING Search_query_cannot_be_empty w)
                  else (Val None,
                        logged ERROR (Invalid_language_specified language) w))).
  { unfold search_documents. rewrite Hl.
    destruct (String.eqb query_string ""); reflexivity. }
  split; [exact Hb|]. split; [exact Hs|].
  rewrite Hs. now destruct (String.eqb query_string "").
Qed.

(** C9, amended.  The empty query gets the empty list, the value of a
    search whose statement returns no row; a query that is not empty
    gets [None] for a language that is not supported, on a closed
    connection, and where the statement fails, and the rows of the
    statement otherwise.  The command line never hands the empty query
    to the search: an empty [-q] is treated as no [-q] at all, and an
    empty line in the interactive mode is asked again. *)
Theorem empty_query_never_reaches_the_search
    (conn : option conn_handle) (w : world)
    (query_string language bad_language : string) (limit : Z)
    (stmt : statement) (args : arguments)
    (stdin : list stdin_event) :
  query_string <> ""%string ->
  build_query query_string language limit = Some stmt ->
  in_set bad_language valid_languages = false ->
  fst (search_documents conn "" language limit w) = Val (Some [])
  /\ fst (search_documents (Some the_connection) query_string language limit w)
     = (if closed (db w) then Val None
        else match fst (execute run_statement stmt (db w)) with
             | Val results => Val (Some results)
             | Exc _ => Val None
             end)
  /\ fst (search_documents conn query_string bad_language limit w) = Val None
  /\ main (mkArgs (setup args) (Some ""%string) (lang args) (SearchPkm.limit args))
       stdin w
     = main (mkArgs (setup args) None (lang args) (SearchPkm.limit args)) stdin w
  /\ interactive_loop conn limit (Line "" :: stdin) w
     = interactive_loop conn limit stdin (snd (print Prompt_search_query w)).
Proof.
  intros Hq Hb Hbad.
  split; [reflexivity|]. split; [|split; [|split; reflexivity]].
  - destruct (closed (db w)) eqn:Hc.
    + unfold search_documents. rewrite (eqb_empty_false _ Hq).
      rewrite (build_query_valid query_string language limit), Hb.
      cbn [negb]. unfold bind at 1. unfold try_except at 1, bind at 1.
      unfold conn_cursor, on_db, cursor. rewrite Hc.
      unfold bind.
      destruct (search_failed_returns_None (Some the_connection) None
                  (already_closed) (set_db (db w) w)) as (w' & Ew & _).
      rewrite Ew. reflexivity.
    + rewrite (search_documents_runs w query_string language limit stmt
                 Hq Hb Hc).
      destruct (execute run_statement stmt (db w)) as [[results|e] c];
        [reflexivity|].
      destruct (search_failed_returns_None (Some the_connection) (Some stmt)
                  e (set_db c w)) as (w' & Ew & _).
      now rewrite Ew.
  - destruct (unsupported_language_rejected_value conn query_string
                bad_language limit w Hq Hbad) as (w' & Ew). now rewrite Ew.
Qed.

End WithEngine.

(** ** The program on the engine of whole words *)

#[local] Existing Instance word_engine.


(** A query string that holds NUL: [mogrify] raises before anything is
    sent, the search returns [None], the session is as it was and the
    next search returns its rows. *)
Example query_with_NUL_fails_unsent :
  let q := String "a" (String (ascii_of_N 0) "b") in
  let w1 := snd (search_documents (Some the_connection) q "english" 10 desk) in
  fst (search_documents (Some the_connection) q "english" 10 desk) = Val None
  /\ db w1 = db desk
  /\ exists rs,
       fst (search_documents (Some the_connection) "hello" "english" 10 w1)
       = Val (Some rs)
       /\ List.length rs = 2.
Proof.
  split; [|split]; [vm_compute; reflexivity|vm_compute; reflexivity|].
  eexists. split; vm_compute; reflexivity.
Qed.

(** A limit that is no bigint: the server refuses the statement, and
    the transaction is failed. *)
Example limit_beyond_bigint_is_refused :
  fst (search_documents (Some the_connection) "hello" "english" (2 ^ 63) desk)
  = Val None
  /\ txn (db (snd (search_documents (Some the_connection) "hello" "english"
                     (2 ^ 63) desk)))
     = InFailedTransaction library.
Proof. split; vm_compute; reflexivity. Qed.

(** Without a connection the handler of [execute_sql_setup] raises from
    its own [rollback]. *)
Example setup_without_connection_raises :
  fst (execute_sql_setup None SQL_SETUP_FILE
         (mkWorld (db desk) [] [] 0
            (fun _ => mkEnv true (Val tt) true (Val "CREATE"%string))))
  = Exc (PyExc AttributeError "'NoneType' object has no attribute 'rollback'").
Proof. vm_compute. reflexivity. Qed.


Lemma unsupported_language_is_rejected_witness :
  fst (search_documents (Some the_connection) "hello" "klingon" 10 desk)
  = Val None
  /\ db (snd (search_documents (Some the_connection) "hello" "klingon" 10 desk))
     = db desk.
Proof.
  destruct (unsupported_language_is_rejected (Some the_connection)
              "hello" "klingon" 10 desk eq_refl) as (_ & H & Hd).
  split; [|exact Hd]. now rewrite H.
Defined.

(** C9, as stated, fails on the command line: an empty [-q] opens the
    interactive mode, an empty line there is asked again, and neither
    prints "No results found", which a query without a match does. *)
Lemma empty_query_is_not_shown_as_no_results :
  ~ In No_results_found
       (stdout (snd (main (mkArgs false (Some ""%string) "english" 10) [] desk)))
  /\ ~ In No_results_found
          (stdout (snd (main (mkArgs false None "english" 10)
                          [Line ""; EOFError] desk)))
  /\ In No_results_found
        (stdout (snd (main (mkArgs false (Some "zzz"%string) "english" 10) []
                        desk))).
Proof.
  split; [|split].
  - vm_compute. intuition discriminate.
  - vm_compute. intuition discriminate.
  - vm_compute. now left.
Qed.

Lemma empty_query_never_reaches_the_search_witness :
  fst (search_documents (Some the_connection) "zzz" "both" 10 desk)
  = fst (search_documents (Some the_connection) "" "both" 10 desk)
  /\ fst (search_documents (Some the_connection) "zzz" "klingon" 10 desk)
     = Val None
  /\ main (mkArgs false (Some ""%string) "english" 10) [] desk
     = main (mkArgs false None "english" 10) [] desk.
Proof.
  destruct (empty_query_never_reaches_the_search (Some the_connection) desk
              "zzz" "both" "klingon" 10
              (Select SelectBoth
                 [PStr FTS_CONFIG_EN; PStr HEADLINE_OPTIONS; PStr FTS_CONFIG_EN;
                  PStr "zzz"; PStr FTS_CONFIG_RU; PStr "zzz";
                  PTuple SUPPORTED_EXTENSIONS; PInt 10])
              (mkArgs false None "english" 10) [])
    as (H1 & H2 & H3 & H4 & _).
  - discriminate.
  - reflexivity.
  - reflexivity.
  - split; [|split].
    + rewrite H1, H2. reflexivity.
    + exact H3.
    + exact H4.
Defined.

End SearchFacts.

(** * More rules of the monad *)

Section MoreRules.
Context {W : Type}.

Lemma post_ret {A : Type} (Q : A -> Prop) (a : A) : Q a -> post Q (@ret W A a).
Proof. intros H w a' w' E. injection E as <- _. exact H. Qed.

Lemma post_bind {A B : Type} (Q : B -> Prop) (m : M W A) (k : A -> M W B) :
  (forall a, post Q (k a)) -> post Q (bind m k).
Proof.
  intros Hk w b w' E. unfold bind in E.
  destruct (m w) as [[a|e] w1]; [|discriminate]. exact (Hk a w1 b w' E).
Qed.

Lemma post_try_except {A : Type} (Q : A -> Prop) (m : M W A) (h : exn -> M W A) :
  post Q m -> (forall e, post Q (h e)) -> post Q (try_except m h).
Proof.
  intros Hm Hh w a w' E. unfold try_except in E.
  destruct (m w) as [[a1|e] w1] eqn:Em.
  - injection E as <- <-. exact (Hm w a1 w1 Em).
  - exact (Hh e w1 a w' E).
Qed.

(** A value bound to a continuation comes from a value of the first
    computation. *)
Lemma bind_val {A B : Type} (m : M W A) (k : A -> M W B) (w w' : W) (b : B) :
  bind m k w = (Val b, w') ->
  exists a w1, m w = (Val a, w1) /\ k a w1 = (Val b, w').
Proof.
  unfold bind. destruct (m w) as [[a|e] w1]; [|discriminate]. eauto.
Qed.


End MoreRules.

(** * More facts about parse.py *)

Module ParseLaws.

Import Psycopg2 Parse ParseFacts.

(** ** Every file is counted once *)

Lemma process_file_counts_one conn root filename n :
  post (fun n' => tally n' = S (tally n)) (process_file conn root filename n).
Proof.
  unfold process_file. apply post_try_except.
  - destruct (in_set _ SUPPORTED_EXTENSIONS).
    + apply post_bind. intros _. apply post_bind. intros [t|].
      * apply post_bind. intros []; apply post_ret; unfold tally; cbn; lia.
      * apply post_bind. intros _. apply post_ret. unfold tally; cbn; lia.
    + apply post_ret. unfold tally; cbn; lia.
  - intros e. apply post_bind. intros _. apply post_ret. unfold tally; cbn; lia.
Qed.

Lemma process_files_counts conn root files :
  forall n, post (fun n' => tally n' = tally n + List.length files)
              (process_files conn root files n).
Proof.
  induction files as [|f files IH]; intros n.
  - apply post_ret. cbn. lia.
  - intros w a w' E. cbn in E. unfold bind in E.
    destruct (process_file conn root f n w) as [[n1|e] w1] eqn:E1;
      [|discriminate].
    pose proof (process_file_counts_one conn root f n w n1 w1 E1) as H1.
    pose proof (IH n1 w1 a w' E) as H2. cbn in *. lia.
Qed.

Lemma length_walk_files_cons root files walk :
  List.length (walk_files ((root, files) :: walk))
  = List.length files + List.length (walk_files walk).
Proof.
  unfold walk_files. cbn. now rewrite length_app, length_map.
Qed.

Lemma process_walk_counts conn walk :
  forall n, post (fun n' => tally n' = tally n + List.length (walk_files walk))
              (process_walk conn walk n).
Proof.
  induction walk as [|[root files] walk IH]; intros n.
  - apply post_ret. cbn. lia.
  - intros w a w' E. cbn [process_walk] in E. unfold bind in E.
    destruct (process_files conn root files n w) as [[n1|e] w1] eqn:E1;
      [|discriminate].
    pose proof (process_files_counts conn root files n w n1 w1 E1) as H1.
    pose proof (IH n1 w1 a w' E) as H2. cbn beta in *.
    rewrite length_walk_files_cons. lia.
Qed.

(** X1. A run over a directory always returns its counters, whatever
    the state of the connection and whatever fails: no file aborts it.
    The four counters add up to the number of files that the walk
    lists: every file is counted, and counted once. *)
Theorem every_file_is_counted_once (directory_path : string) (w : world) :
  exists n w',
    process_directory directory_path (Some the_connection) w
    = (Val (Some n), w')
    /\ tally n
       = List.length
           (walk_files (os_walk (env_at w (accesses w)) directory_path)).
Proof.
  destruct (process_directory_total directory_path (Some the_connection) w)
    as (r & w' & E).
  unfold process_directory, bind in E.
  change (logging_info (Starting_processing_directory directory_path) w)
    with (Val tt, snd (logging_info
                         (Starting_processing_directory directory_path) w)) in E.
  cbv iota beta in E.
  set (w0 := snd (logging_info (Starting_processing_directory directory_path) w))
    in *.
  change (access w0)
    with (Val (env_at w (accesses w)), snd (access w0)) in E.
  cbv iota beta in E.
  destruct (process_walk (Some the_connection)
              (os_walk (env_at w (accesses w)) directory_path)
              (mkCounters 0 0 0 0) (snd (access w0))) as [[n|e] w1] eqn:Ew;
    [|discriminate].
  pose proof (process_walk_counts _ _ _ _ _ _ Ew) as Hn.
  cbn in E. injection E as <- <-.
  unfold process_directory, bind.
  change (logging_info (Starting_processing_directory directory_path) w)
    with (Val tt, w0).
  cbv iota beta.
  change (access w0) with (Val (env_at w (accesses w)), snd (access w0)).
  cbv iota beta. rewrite Ew. cbn.
  eexists. eexists. split; [reflexivity|]. exact Hn.
Qed.

(** ** Properties of the records that every call keeps *)

Section Kept.

Variable Q : relation -> Prop.

Lemma kept_cursor : preserves (holds_through Q : connection -> Prop) cursor.
Proof. intros c H. unfold cursor. now destruct (closed c). Qed.

Lemma kept_commit : preserves (holds_through Q : connection -> Prop) commit.
Proof.
  intros [tb sq tx cl fs] [H1 H2]. unfold commit, holds_through in *. cbn in *.
  destruct cl; cbn; [auto|]. destruct tx; cbn in *; auto.
Qed.

Lemma kept_rollback : preserves (holds_through Q : connection -> Prop) rollback.
Proof.
  intros [tb sq tx cl fs] [H1 H2]. unfold rollback, holds_through in *.
  cbn in *. destruct cl; cbn; auto.
Qed.

(** A statement keeps the property if the server's run of it does. *)
Lemma kept_execute s :
  (forall t u r t' u', run_statement s t u = (Val r, t', u') -> Q t -> Q t') ->
  preserves (holds_through Q : connection -> Prop) (execute run_statement s).
Proof.
  intros Hrun [tb sq tx cl fs] [H1 H2].
  unfold execute, holds_through in *. cbn in *.
  destruct cl; cbn; [auto|].
  destruct (adapt s); cbn; [auto|].
  destruct fs as [|[[m|m]|] fs]; cbn; auto.
  all: destruct tx; cbn in *; auto.
  all: destruct (run_statement s tb sq) as [[[r|e] t'] u'] eqn:R; cbn; auto.
  all: split; [exact (Hrun _ _ _ _ _ R H1)|assumption].
Qed.

Hypothesis Q_create : Q None -> Q (Some []).


Lemma kept_insert_file_data conn p ext t :
  (forall rs sq ext', varchar 10 ext = Some ext' ->
                      Q (Some rs) -> path_stored p rs = false ->
                      Q (Some (rs ++ [mkRow sq p ext' t]))) ->
  preserves (fun w => holds_through Q (db w)) (insert_file_data conn p ext t).
Proof.
  intros Hins. unfold insert_file_data. destruct conn; db_steps.
  all: auto using kept_cursor, kept_commit, kept_rollback.
  - apply kept_execute. intros tb u r t' u' R H. cbn in R.
    destruct tb as [rs|]; [|discriminate].
    destruct (varchar 10 ext) as [ext'|] eqn:Hv; [|discriminate].
    destruct (path_stored p rs) eqn:Hp; injection R as <- <- <-; eauto.
  - destruct (0 <? a0)%Z; db_steps.
Qed.

(** The files that the loops are run over. *)
Variable F : string * string -> Prop.

Hypothesis Q_insert :
  forall root filename t rs sq,
    F (root, filename) ->
    in_set (lower (snd (splitext filename))) SUPPORTED_EXTENSIONS = true ->
    Q (Some rs) ->
    Q (Some (rs ++ [mkRow sq (os_path_join root filename)
                      (lower (snd (splitext filename))) t])).

Lemma kept_process_file conn root filename n :
  F (root, filename) ->
  preserves (fun w => holds_through Q (db w)) (process_file conn root filename n).
Proof.
  intros HF. unfold process_file, extract_text_from_md.
  apply preserves_try_except; [|intros e; db_steps].
  destruct (in_set _ SUPPORTED_EXTENSIONS) eqn:Hin; [|db_steps].
  apply preserves_bind; [apply preserves_logging|intros _].
  apply preserves_bind.
  - repeat match goal with
           | |- context [if ?b then _ else _] => destruct b
           end.
    all: auto using preserves_extract_txt, preserves_extract_pdf, preserves_ret.
  - intros [t|]; [|db_steps].
    apply preserves_bind.
    { apply kept_insert_file_data. intros rs sq ext' Hv HQ _.
      rewrite (supported_fits _ Hin) in Hv. injection Hv as <-.
      now apply Q_insert. }
    intros []; db_steps.
Qed.

Lemma kept_process_files conn root files :
  (forall filename, In filename files -> F (root, filename)) ->
  forall n, preserves (fun w => holds_through Q (db w))
              (process_files conn root files n).
Proof.
  induction files as [|f files IH]; intros HF n; cbn; [db_steps|].
  apply preserves_bind.
  - apply kept_process_file. apply HF. now left.
  - apply IH. intros g Hg. apply HF. now right.
Qed.

Lemma kept_process_walk conn walk :
  (forall f, In f (walk_files walk) -> F f) ->
  forall n, preserves (fun w => holds_through Q (db w))
              (process_walk conn walk n).
Proof.
  induction walk as [|[root files] walk IH]; intros HF n; cbn; [db_steps|].
  cbn [walk_files flat_map fst snd] in HF.
  apply preserves_bind.
  - apply kept_process_files. intros g Hg. apply HF.
    apply in_or_app. left. now apply in_map.
  - apply IH. intros g Hg. apply HF. apply in_or_app. now right.
Qed.


End Kept.

Lemma extends_with_more (P : row -> Prop) rs0 rs r :
  P r -> extends_with P rs0 (Some rs) -> extends_with P rs0 (Some (rs ++ [r])).
Proof.
  intros Hr (a & H & Ha). cbn in H. exists (a ++ [r])%list. cbn. split.
  - now rewrite H, app_assoc.
  - intros x Hx. apply in_app_iff in Hx. destruct Hx as [Hx|[<-|[]]]; auto.
Qed.

Lemma extends_with_start (P : row -> Prop) (c : connection) :
  txn c = Idle -> holds_through (extends_with P (rows c)) c.
Proof.
  intros Ht. unfold holds_through, snapshot_of. rewrite Ht.
  split; exists []; unfold rows, rows_of; rewrite app_nil_r;
    (split; [reflexivity|intros r []]).
Qed.

(** The store after a run is the store after its loops, which run over
    the walk that the first access to the file system finds. *)
Lemma process_directory_db directory_path h (w : world) :
  db (snd (process_directory directory_path (Some h) w))
  = db (snd (process_walk (Some h)
               (os_walk (env_at w (accesses w)) directory_path)
               (mkCounters 0 0 0 0)
               (snd (access
                       (snd (logging_info
                               (Starting_processing_directory directory_path)
                               w)))))).
Proof.
  unfold process_directory, bind.
  change (logging_info (Starting_processing_directory directory_path) w)
    with (Val tt, snd (logging_info
                         (Starting_processing_directory directory_path) w)).
  cbv iota beta.
  change (access (snd (logging_info
                         (Starting_processing_directory directory_path) w)))
    with (Val (env_at w (accesses w)),
          snd (access (snd (logging_info
                              (Starting_processing_directory directory_path)
                              w)))).
  cbv iota beta.
  destruct (process_walk _ _ _ _) as [[n|e] w2]; reflexivity.
Qed.

(** X2. Whatever fails during a run, the records after it are those
    before it, followed by records made of files of the walk of the
    directory, as the run found it: each has the path of such a file, as
    its extension the lower-cased extension of the file name, and that
    extension is .txt, .pdf or .md.  A file of another type, and a file
    that the walk does not list, is never stored. *)
Theorem only_files_of_supported_types_are_stored
    (directory_path : string) (conn : option conn_handle) (w : world) :
  txn (db w) = Idle ->
  exists added,
    rows (db (snd (process_directory directory_path conn w)))
    = (rows (db w) ++ added)%list
    /\ forall r, In r added ->
         made_of_a_file_of
           (walk_files (os_walk (env_at w (accesses w)) directory_path)) r.
Proof.
  intros Ht. destruct conn as [h|].
  2:{ exists []. rewrite app_nil_r. split; [reflexivity|intros r []]. }
  rewrite process_directory_db.
  set (fs := walk_files (os_walk (env_at w (accesses w)) directory_path)).
  destruct (kept_process_walk
              (extends_with (made_of_a_file_of fs) (rows (db w)))
              (fun f => In f fs))
    with (conn := Some h)
         (walk := os_walk (env_at w (accesses w)) directory_path)
         (n := mkCounters 0 0 0 0)
         (w := snd (access
                      (snd (logging_info
                              (Starting_processing_directory directory_path)
                              w))))
    as [H _].
  - intros root filename t rs sq Hin Hext H.
    apply extends_with_more; [|exact H].
    exists root, filename. cbn. auto.
  - auto.
  - exact (extends_with_start _ (db w) Ht).
  - exact H.
Qed.



(** ** What the value of a call says about the store *)

(** X4. On an open connection outside a transaction, setting up the
    schema never changes the records.  [True] says that the table
    exists and the transaction is ended; [False] that the tables are as
    they were, after a rollback; an exception leaves
    [setup_database] only when the connection is lost.  Where the
    server takes the statement the value is [True], on a table that
    exists as on one that does not. *)
Theorem setup_database_result (w : world) :
  closed (db w) = false -> txn (db w) = Idle ->
  rows (db (snd (setup_database (Some the_connection) w))) = rows (db w)
  /\ match fst (setup_database (Some the_connection) w) with
     | Val true =>
         table (db (snd (setup_database (Some the_connection) w))) <> None
         /\ txn (db (snd (setup_database (Some the_connection) w))) = Idle
     | Val false =>
         table (db (snd (setup_database (Some the_connection) w)))
         = table (db w)
         /\ txn (db (snd (setup_database (Some the_connection) w))) = Idle
     | Exc _ =>
         closed (db (snd (setup_database (Some the_connection) w))) = true
     end
  /\ (hd None (faults (db w)) = None ->
      fst (setup_database (Some the_connection) w) = Val true).
Proof.
  destruct w as [[tb sq tx cl fs] l a ev]. cbn. intros -> ->.
  unfold setup_database, try_except, bind, on_db, cursor, execute, commit,
    rollback, rows.
  cbn.
  destruct fs as [|[[m|m]|] fs]; cbn.
  all: destruct tb as [rs|]; cbn; repeat split; try discriminate; auto.
Qed.

Lemma length_list_ascii_of_string (s : string) :
  List.length (list_ascii_of_string s) = String.length s.
Proof. induction s as [|c s IH]; cbn; [reflexivity|now rewrite IH]. Qed.

(** A value of at most [n] characters is stored as it is. *)
Lemma varchar_fits (n : nat) (s : string) :
  (String.length s <= n)%nat -> varchar n s = Some s.
Proof.
  intros H. unfold varchar.
  rewrite skipn_all2, firstn_all2
    by (rewrite length_list_ascii_of_string; exact H).
  cbn. now rewrite string_of_list_ascii_of_string.
Qed.

(** X5. On an open connection outside a transaction, the value of an
    insertion tells what happened to the store.  [True]: the path was
    not stored, and one record with this path, this content and the
    extension as the column [file_extension] stores it (the extension
    itself where it has at most ten characters) has been added after
    the others.  [False]: the table is as it was.  An exception: the
    connection is lost, and the table is as it was.  In the first two
    cases no transaction is left open. *)
Theorem insert_file_data_result (p ext : string) (t : text) (w : world) :
  closed (db w) = false -> txn (db w) = Idle ->
  match fst (insert_file_data (Some the_connection) p ext t w) with
  | Val true =>
      exists rs ext',
        table (db w) = Some rs /\ path_stored p rs = false
        /\ varchar 10 ext = Some ext'
        /\ ((String.length ext <= 10)%nat -> ext' = ext)
        /\ table (db (snd (insert_file_data (Some the_connection) p ext t w)))
           = Some (rs ++ [mkRow (sequences (db w)) p ext' t])
        /\ txn (db (snd (insert_file_data (Some the_connection) p ext t w)))
           = Idle
  | Val false =>
      table (db (snd (insert_file_data (Some the_connection) p ext t w)))
      = table (db w)
      /\ txn (db (snd (insert_file_data (Some the_connection) p ext t w)))
         = Idle
  | Exc _ =>
      table (db (snd (insert_file_data (Some the_connection) p ext t w)))
      = table (db w)
      /\ closed (db (snd (insert_file_data (Some the_connection) p ext t w)))
         = true
  end.
Proof.
  destruct w as [[tb sq tx cl fs] l a ev]. cbn [db closed txn]. intros -> ->.
  unfold insert_file_data, try_except, bind, on_db, cursor, execute, commit,
    rollback.
  cbn [db closed set_db].
  destruct (adapt (InsertOnConflictDoNothing p ext t)) as [x|]; [cbn; auto|].
  cbn.
  destruct fs as [|[[m|m]|] fs]; cbn; auto.
  all: destruct tb as [rs|]; cbn; auto.
  all: destruct (varchar 10 ext) as [ext'|] eqn:Hv; cbn; auto.
  all: destruct (path_stored p rs) eqn:Hp; cbn; auto.
  all: exists rs, ext'; repeat split; auto.
  all: intros Hlen; rewrite (varchar_fits 10 ext Hlen) in Hv; congruence.
Qed.

(** What an insertion that returns [True] has done. *)
Lemma insert_true_stores p ext t (w w1 : world) :
  closed (db w) = false -> txn (db w) = Idle ->
  insert_file_data (Some the_connection) p ext t w = (Val true, w1) ->
  exists rs ext0,
    table (db w) = Some rs /\ varchar 10 ext = Some ext0
    /\ table (db w1) = Some (rs ++ [mkRow (sequences (db w)) p ext0 t])
    /\ txn (db w1) = Idle /\ closed (db w1) = false.
Proof.
  destruct w as [[tb sq tx cl fs] l a ev]. cbn [db closed txn]. intros -> ->.
  unfold insert_file_data, try_except, bind, on_db, cursor, execute, commit,
    rollback.
  cbn [db closed set_db].
  destruct (adapt (InsertOnConflictDoNothing p ext t)) as [x|];
    [cbn; discriminate|].
  cbn.
  destruct fs as [|[[m|m]|] fs]; cbn; try discriminate.
  all: destruct tb as [rs|]; cbn; try discriminate.
  all: destruct (varchar 10 ext) as [ext0|]; cbn; try discriminate.
  all: destruct (path_stored p rs); cbn; try discriminate.
  all: intros H; injection H as <-; cbn; eauto 10.
Qed.

(** An insertion of a stored path adds no record, whatever comes of
    it. *)
Lemma insert_stored_path p ext t rs (w : world) :
  closed (db w) = false -> txn (db w) = Idle -> table (db w) = Some rs ->
  path_stored p rs = true ->
  fst (insert_file_data (Some the_connection) p ext t w) <> Val true
  /\ rows (db (snd (insert_file_data (Some the_connection) p ext t w))) = rs.
Proof.
  destruct w as [[tb sq tx cl fs] l a ev]. cbn [db closed txn table].
  intros -> -> -> Hp.
  unfold insert_file_data, try_except, bind, on_db, cursor, execute, commit,
    rollback, rows.
  cbn [db closed set_db].
  destruct (adapt (InsertOnConflictDoNothing p ext t)) as [x|];
    [cbn; split; [discriminate|reflexivity]|].
  cbn.
  destruct fs as [|[[m|m]|] fs]; cbn; try (split; [discriminate|reflexivity]).
  all: destruct (varchar 10 ext) as [ext0|]; cbn;
    try (split; [discriminate|reflexivity]).
  all: rewrite Hp; cbn; split; [discriminate|reflexivity].
Qed.

(** X6. The first content stored for a path stays.  When an insertion
    on an open connection outside a transaction has returned [True],
    the record of the path is the last of the store; and a second
    insertion for the same path, with whatever extension and content
    and whatever fails, does not return [True] and leaves the records as
    they are. *)
Theorem first_content_of_a_path_is_kept
    (p ext ext' : string) (t t' : text) (w w1 : world) :
  closed (db w) = false -> txn (db w) = Idle ->
  insert_file_data (Some the_connection) p ext t w = (Val true, w1) ->
  (exists ext0,
     varchar 10 ext = Some ext0
     /\ rows (db w1) = (rows (db w) ++ [mkRow (sequences (db w)) p ext0 t])%list)
  /\ fst (insert_file_data (Some the_connection) p ext' t' w1) <> Val true
  /\ rows (db (snd (insert_file_data (Some the_connection) p ext' t' w1)))
     = rows (db w1).
Proof.
  intros Hc Ht Hins.
  destruct (insert_true_stores p ext t w w1 Hc Ht Hins)
    as (rs & ext0 & Htb & Hv & Htb1 & Ht1 & Hc1).
  split.
  - exists ext0. split; [exact Hv|]. unfold rows. now rewrite Htb, Htb1.
  - assert (Hp : path_stored p (rs ++ [mkRow (sequences (db w)) p ext0 t])
                 = true).
    { rewrite path_stored_app. unfold path_stored at 2. cbn.
      rewrite String.eqb_refl. apply orb_true_r. }
    destruct (insert_stored_path p ext' t' _ w1 Hc1 Ht1 Htb1 Hp) as (Hv' & Hr).
    split; [exact Hv'|]. rewrite Hr. unfold rows. now rewrite Htb1.
Qed.

(** ** The script *)

Lemma get_db_connection_value (s : startup) (sw : script_world) :
  exists sw',
    get_db_connection s sw
    = (Val (match connect s with
            | Val _ => Some the_connection
            | Exc _ => None
            end), sw')
    /\ s_db sw' = s_db sw /\ s_accesses sw' = s_accesses sw
    /\ s_env_at sw' = s_env_at sw.
Proof.
  unfold get_db_connection, try_except, bind, raise.
  destruct (connect s) as [u|e]; cbn.
  - eexists. repeat split.
  - destruct (exc_type e); cbn; eexists; repeat split.
Qed.

Lemma setup_database_accesses conn (w : world) :
  accesses (snd (setup_database conn w)) = accesses w.
Proof.
  destruct w as [[tb sq tx cl fs] l a ev].
  unfold setup_database, try_except, bind, on_db, cursor, execute, commit,
    rollback.
  destruct conn; [|reflexivity]. cbn.
  destruct cl; cbn; [reflexivity|].
  destruct fs as [|[[m|m]|] fs]; cbn; try reflexivity.
  all: destruct tx; cbn; try reflexivity.
  all: destruct tb; reflexivity.
Qed.

(** What the script does once it has a connection, up to [finally]. *)
Lemma script_body_returns directory conn (sw : script_world) :
  exists sw',
    try_except
      (match conn with
       | Some _ =>
           ok <- call_ingestion (setup_database conn) ;;
           if ok : bool
           then _ <- call_ingestion (process_directory directory conn) ;;
                ret tt
           else script_log ERROR Failed_to_set_up_table_Aborting
       | None => ret tt
       end)
      (fun e => script_log ERROR (Unexpected_error_during_script e)) sw
    = (Val tt, sw')
    /\ (fst (setup_database conn
               (mkWorld (s_db sw) [] (s_accesses sw) (s_env_at sw)))
        <> Val true ->
        s_accesses sw' = s_accesses sw).
Proof.
  unfold try_except, bind, call_ingestion.
  destruct conn as [h|]; [|exists sw; split; [reflexivity|auto]].
  pose proof (setup_database_accesses (Some h)
                (mkWorld (s_db sw) [] (s_accesses sw) (s_env_at sw))) as Ha.
  destruct (setup_database (Some h)
              (mkWorld (s_db sw) [] (s_accesses sw) (s_env_at sw)))
    as [[[|]|e] w1]; cbn [fst snd] in *.
  - cbn [s_db s_accesses s_env_at s_log].
    destruct (process_directory_total directory (Some h)
                (mkWorld (db w1) [] (accesses w1) (env_at w1)))
      as (r & w2 & E).
    rewrite E. cbn. eexists. split; [reflexivity|]. intros H. now destruct H.
  - eexists. split; [reflexivity|]. intros _. exact Ha.
  - eexists. split; [reflexivity|]. intros _. exact Ha.
Qed.

Lemma script_run (directory : string) (s : startup)
    (sw : script_world) :
  exists sw',
    main directory s sw
    = (Val (if isdir s && configured s then 0%Z else 1%Z), sw')
    /\ (isdir s && configured s = false ->
        s_db sw' = s_db sw /\ s_accesses sw' = s_accesses sw)
    /\ (isdir s && configured s = true ->
        closed (s_db sw')
        = match connect s with Val _ => true | Exc _ => closed (s_db sw) end)
    /\ (isdir s && configured s = true ->
        fst (setup_database (Some the_connection)
               (mkWorld (s_db sw) [] (s_accesses sw) (s_env_at sw)))
        <> Val true ->
        s_accesses sw' = s_accesses sw).
Proof.
  unfold main.
  destruct (isdir s); cbn [negb andb];
    [|eexists; split; [reflexivity|]; repeat split; discriminate].
  destruct (configured s); cbn [negb];
    [|eexists; split; [reflexivity|]; repeat split; discriminate].
  unfold bind at 1. unfold try_except at 1. unfold bind at 1.
  destruct (get_db_connection_value s sw) as (sw1 & E1 & Hd1 & Ha1 & He1).
  rewrite E1. unfold bind at 1.
  destruct (script_body_returns directory
              (match connect s with
               | Val _ => Some the_connection
               | Exc _ => None
               end) sw1) as (sw2 & E2 & Hs2).
  rewrite E2. cbn [ret].
  destruct (connect s) as [u|e].
  - eexists. split; [reflexivity|]. split; [discriminate|].
    split; [reflexivity|]. intros _ Hf. cbn.
    rewrite <- Ha1. apply Hs2. now rewrite Hd1, Ha1, He1.
  - injection E2 as <-.
    eexists. split; [reflexivity|]. split; [discriminate|].
    split; [intros _; now rewrite Hd1|intros _ _; exact Ha1].
Qed.

(** X7. The script always ends, and its exit status is 1 exactly when
    its argument is not a directory or the configuration of the
    database is incomplete; it has then touched neither the database
    nor the file system.  A connection that cannot be opened, and a
    schema that cannot be set up, end the script with status 0. *)
Theorem script_exit_status (directory : string) (s : startup)
    (sw : script_world) :
  exists sw',
    main directory s sw
    = (Val (if isdir s && configured s then 0%Z else 1%Z), sw')
    /\ (isdir s && configured s = false ->
        s_db sw' = s_db sw /\ s_accesses sw' = s_accesses sw).
Proof.
  destruct (script_run directory s sw) as (sw' & H & Hbad & _).
  exists sw'. auto.
Qed.

Lemma script_exit_status_witness :
  exists sw',
    main "docs" (mkStartup true false (Val tt)) (script_world_of first_run)
    = (Val 1%Z, sw')
    /\ s_db sw' = db first_run /\ s_accesses sw' = 0.
Proof.
  destruct (script_exit_status "docs" (mkStartup true false (Val tt))
              (script_world_of first_run)) as (sw' & H & Hbad).
  exists sw'. split; [exact H|]. exact (Hbad eq_refl).
Defined.

(** X8. When the script has opened a connection it closes it before it
    ends, whatever happened in between; and when the schema could not
    be set up it has not looked at a single file. *)
Theorem script_closes_the_connection_it_opened
    (directory : string) (s : startup) (sw : script_world) (u : unit) :
  isdir s = true -> configured s = true -> connect s = Val u ->
  exists sw',
    main directory s sw = (Val 0%Z, sw')
    /\ closed (s_db sw') = true
    /\ (fst (setup_database (Some the_connection)
               (mkWorld (s_db sw) [] (s_accesses sw) (s_env_at sw)))
        <> Val true ->
        s_accesses sw' = s_accesses sw).
Proof.
  intros Hd Hc Hu.
  destruct (script_run directory s sw) as (sw' & H & _ & Hcl & Hacc).
  rewrite Hd, Hc in *. cbn [andb] in *. rewrite Hu in Hcl.
  exists sw'. auto.
Qed.

Lemma script_closes_the_connection_it_opened_witness :
  exists sw',
    main "docs" good_start (script_world_of refused_insert) = (Val 0%Z, sw')
    /\ closed (s_db sw') = true
    /\ s_accesses sw' = 0.
Proof.
  destruct (script_closes_the_connection_it_opened "docs" good_start
              (script_world_of refused_insert) tt eq_refl eq_refl eq_refl)
    as (sw' & H & Hc & Ha).
  exists sw'. split; [exact H|]. split; [exact Hc|].
  apply Ha. vm_compute. discriminate.
Defined.

(** ** The properties on the scenario *)

Lemma only_files_of_supported_types_are_stored_witness :
  exists added,
    rows (db (snd (process_directory "docs" (Some the_connection) first_run)))
    = (rows (db first_run) ++ added)%list
    /\ forall r, In r added ->
         made_of_a_file_of
           [("docs", "a.txt"); ("docs", "b.pdf"); ("docs", "c.md")]%string r.
Proof.
  exact (only_files_of_supported_types_are_stored "docs"
           (Some the_connection) first_run eq_refl).
Defined.


Lemma setup_database_result_witness :
  rows (db (snd (setup_database (Some the_connection) later_run)))
  = rows (db later_run)
  /\ fst (setup_database (Some the_connection) later_run) = Val true.
Proof.
  destruct (setup_database_result later_run eq_refl eq_refl)
    as (Hrows & _ & Htrue).
  split; [exact Hrows|]. exact (Htrue eq_refl).
Defined.

Lemma insert_file_data_result_witness :
  match fst (insert_file_data (Some the_connection) "docs/a.txt" ".txt" []
               refused_insert) with
  | Val true => False
  | Val false =>
      table (db (snd (insert_file_data (Some the_connection) "docs/a.txt"
                        ".txt" [] refused_insert)))
      = table (db refused_insert)
  | Exc _ => False
  end.
Proof.
  pose proof (insert_file_data_result "docs/a.txt" ".txt" [] refused_insert
                eq_refl eq_refl) as H.
  revert H.
  change (fst (insert_file_data (Some the_connection) "docs/a.txt" ".txt" []
                 refused_insert)) with (@Val bool false).
  intros [H _]. exact H.
Defined.

Lemma first_content_of_a_path_is_kept_witness :
  rows (db (snd (insert_file_data (Some the_connection) "docs/a.txt" ".txt"
                   [0x61%N] first_run)))
  = [mkRow 1 "docs/a.txt" ".txt" [0x61%N]]
  /\ fst (insert_file_data (Some the_connection) "docs/a.txt" ".TXT" [0x62%N]
            (snd (insert_file_data (Some the_connection) "docs/a.txt" ".txt"
                    [0x61%N] first_run)))
     <> Val true
  /\ rows (db (snd (insert_file_data (Some the_connection) "docs/a.txt" ".TXT"
                      [0x62%N]
                      (snd (insert_file_data (Some the_connection)
                              "docs/a.txt" ".txt" [0x61%N] first_run)))))
     = [mkRow 1 "docs/a.txt" ".txt" [0x61%N]].
Proof.
  destruct (first_content_of_a_path_is_kept "docs/a.txt" ".txt" ".TXT"
              [0x61%N] [0x62%N] first_run
              (snd (insert_file_data (Some the_connection) "docs/a.txt" ".txt"
                      [0x61%N] first_run)))
    as ((ext0 & Hv & Hr) & Hno & Hsame).
  - reflexivity.
  - reflexivity.
  - vm_compute. reflexivity.
  - split; [reflexivity|]. split; [exact Hno|].
    etransitivity; [exact Hsame|reflexivity].
Defined.

Lemma every_file_is_counted_once_witness :
  exists n w',
    process_directory "docs" (Some the_connection) refused_insert
    = (Val (Some n), w')
    /\ tally n
       = List.length (walk_files (os_walk (env_at refused_insert 0) "docs")).
Proof.
  exact (every_file_is_counted_once "docs" refused_insert).
Defined.

End ParseLaws.

(** * More facts about search_pkm.py *)

Module SearchLaws.
Import Psycopg2 SearchPkm SearchFacts.

Section WithEngine.
Context {E : engine}.

(** ** Order and limit *)

(** The comparison of ranks is that of a total order, as that of the
    numbers of PostgreSQL is. *)
Hypothesis score_leb_total :
  forall a b : score, score_leb a b = false -> score_leb b a = true.







(** ** What a search does to the session *)

Lemma build_query_select (q language : string) (limit : Z) (stmt : statement) :
  build_query q language limit = Some stmt ->
  exists text params, stmt = Select text params.
Proof.
  unfold build_query.
  destruct (String.eqb language "english");
    [|destruct (String.eqb language "russian");
      [|destruct (String.eqb language "simple");
        [|destruct (String.eqb language "both"); [|discriminate]]]].
  all: intros H; injection H as <-; eauto.
Qed.

Lemma execute_select (text : query_text) (params : list param)
    (c : connection) :
  table (snd (execute run_statement (Select text params) c)) = table c
  /\ match fst (execute run_statement (Select text params) c) with
     | Val rs =>
         closed c = false
         /\ adapt (Select text params) = None
         /\ fst (fst (run_statement (Select text params) (table c) tt)) = Val rs
         /\ closed (snd (execute run_statement (Select text params) c)) = false
     | Exc _ =>
         broken (snd (execute run_statement (Select text params) c))
         \/ (adapt (Select text params) <> None
             /\ snd (execute run_statement (Select text params) c) = c)
     end
  /\ (broken c ->
      exists e, fst (execute run_statement (Select text params) c) = Exc e).
Proof.
  destruct c as [tb [] tx cl fs]. unfold execute, broken.
  cbn [closed faults txn table sequences].
  destruct (adapt (Select text params)) as [x|] eqn:Ha.
  { destruct cl; cbn; repeat split; eauto.
    right. split; [discriminate|reflexivity]. }
  destruct cl; cbn; [repeat split; eauto|].
  destruct fs as [|[[m|m]|] fs]; cbn.
  all: destruct tx as [|sn|sn]; cbn.
  all: try (repeat split; eauto;
            solve [ intros [H|(s0 & H)]; discriminate
                  | left; left; reflexivity
                  | left; right; eexists; reflexivity ]).
  all: destruct text; cbn;
    match goal with
    | |- context [select_both ?p ?d] => destruct (select_both p d)
    | |- context [select_one_language ?k ?p ?d] =>
        destruct (select_one_language k p d)
    end; cbn.
  all: repeat split; eauto;
    solve [ intros [H|(s0 & H)]; discriminate
          | left; left; reflexivity
          | left; right; eexists; reflexivity ].
Qed.

Lemma search_failed_spec conn query e (w : world) :
  exists w',
    search_failed conn query e w = (Val None, w')
    /\ db w' = db w /\ stdout w' = stdout w /\ accesses w' = accesses w
    /\ forall l m, In (l, m) (log w') ->
                   In (l, m) (log w) \/ rejection m = false.
Proof.
  unfold search_failed, bind, get, ret, try_except, mogrify.
  destruct (is_psycopg2_Error e), query as [q|], conn as [h|];
    try destruct (closed (db w)); try destruct (adapt q);
    cbn; eexists; repeat split; cbn.
  all: intros l m H; repeat (apply in_app_or in H; destruct H as [H|H]);
    auto.
  all: cbn in H; destruct H as [H|[]]; injection H as <- <-; auto.
Qed.

(** The whole of [search_documents], by cases. *)
Lemma search_documents_spec (conn : option conn_handle)
    (q language : string) (limit : Z) (w : world) :
  exists r w',
    search_documents conn q language limit w = (Val r, w')
    /\ table (db w') = table (db w)
    /\ stdout w' = stdout w
    /\ accesses w' = accesses w
    /\ (forall rs, r = Some rs ->
          (q = ""%string /\ rs = [])
          \/ (exists stmt,
                build_query q language limit = Some stmt
                /\ has_NUL q = false
                /\ closed (db w') = false
                /\ fst (fst (run_statement stmt (table (db w)) tt)) = Val rs))
    /\ (r = None ->
          q <> ""%string
          /\ ((in_set language valid_languages = false /\ db w' = db w)
              \/ (conn = None /\ db w' = db w)
              \/ (has_NUL q = true /\ db w' = db w)
              \/ broken (db w')))
    /\ (q <> ""%string -> in_set language valid_languages = true ->
        conn <> None -> broken (db w) -> r = None)
    /\ (q <> ""%string -> in_set language valid_languages = true ->
        forall l m, In (l, m) (log w') ->
                    In (l, m) (log w) \/ rejection m = false).
Proof.
  destruct (String.eqb_spec q "") as [->|Hq].
  { eexists. eexists. split; [reflexivity|]. cbn.
    repeat split; auto; try discriminate; try congruence.
    intros rs H. injection H as <-. auto. }
  destruct (in_set language valid_languages) eqn:Hl.
  2:{ destruct (unsupported_language_rejected_value conn q language limit w
                  Hq Hl) as (w' & Ew).
      pose proof Ew as Ew'. unfold search_documents in Ew'.
      rewrite (eqb_empty_false _ Hq), Hl in Ew'. cbn in Ew'.
      injection Ew' as <-.
      eexists. eexists. split; [exact Ew|]. cbn.
      repeat split; auto; try discriminate. }
  pose proof (build_query_valid q language limit) as Hb. rewrite Hl in Hb.
  destruct (build_query q language limit) as [stmt|] eqn:Hs; [|discriminate].
  destruct (build_query_select q language limit stmt Hs) as (text & ps & ->).
  destruct conn as [[]|].
  2:{ unfold search_documents. rewrite (eqb_empty_false _ Hq), Hl. cbn [negb].
      unfold bind at 1. unfold try_except at 1. unfold conn_cursor, raise.
      unfold bind.
      destruct (search_failed_spec None None
                  (PyExc AttributeError
                     "'NoneType' object has no attribute 'cursor'") w)
        as (w' & Ef & Hd & Ho & Ha & Hlog).
      rewrite Ef. cbn. eexists. eexists. split; [reflexivity|].
      rewrite Hd. repeat split; auto; try discriminate; try congruence. }
  destruct (closed (db w)) eqn:Hc.
  { unfold search_documents. rewrite (eqb_empty_false _ Hq), Hl. cbn [negb].
    unfold bind at 1. unfold try_except at 1, bind at 1.
    unfold conn_cursor, on_db, cursor. rewrite Hc. unfold bind.
    destruct (search_failed_spec (Some the_connection) None already_closed
                (set_db (db w) w)) as (w' & Ef & Hd & Ho & Ha & Hlog).
    rewrite Ef. cbn. eexists. eexists. split; [reflexivity|].
    cbn in Hd, Ho, Ha, Hlog. rewrite Hd.
    repeat split; auto; try discriminate.
    right. right. right. left. exact Hc. }
  rewrite (search_documents_runs w q language limit _ Hq Hs Hc).
  destruct (execute_select text ps (db w)) as (Ht & Hr & Hbr).
  pose proof (adapt_build_query q language limit _ Hs) as Hadapt.
  destruct (execute run_statement (Select text ps) (db w)) as [[rs|e] c] eqn:Ex;
    cbn [fst snd] in *.
  - destruct Hr as (_ & Hok & Hrun & Hcl).
    assert (Hn : has_NUL q = false).
    { rewrite Hadapt in Hok. unfold adapt_str in Hok.
      now destruct (has_NUL q). }
    eexists. eexists. split; [reflexivity|]. cbn.
    repeat split; auto; try discriminate.
    + intros rs' H. injection H as <-. right. exists (Select text ps). auto.
    + intros _ _ _ Hb'. destruct (Hbr Hb') as (e & He). discriminate.
    + intros _ _ l m H. apply in_app_or in H. destruct H as [H|[H|[]]]; auto.
      injection H as <- <-. auto.
  - destruct (search_failed_spec (Some the_connection)
                (Some (Select text ps)) e (set_db c w))
      as (w' & Ef & Hd & Ho & Ha & Hlog).
    rewrite Ef. eexists. eexists. split; [reflexivity|].
    cbn in Hd, Ho, Ha, Hlog. rewrite Hd.
    repeat split; auto; try discriminate.
    destruct Hr as [Hr|(Hno & ->)]; [auto|].
    right. right. left. split; [|reflexivity].
    rewrite Hadapt in Hno. unfold adapt_str in Hno.
    destruct (has_NUL q); [reflexivity|now destruct Hno].
Qed.


(** X11. A search never raises: whatever the connection (absent, closed,
    failing), the query, the language and the limit, it returns a list
    of rows or [None].  It never changes the stored documents, prints
    nothing and does not touch the file system. *)
Theorem search_never_raises_nor_writes
    (conn : option conn_handle) (q language : string) (limit : Z) (w : world) :
  exists r w',
    search_documents conn q language limit w = (Val r, w')
    /\ table (db w') = table (db w)
    /\ stdout w' = stdout w
    /\ accesses w' = accesses w.
Proof.
  destruct (search_documents_spec conn q language limit w)
    as (r & w' & Es & Ht & Ho & Ha & _).
  exists r, w'. auto.
Qed.

(** X12. A search that fails on the database does not roll back.  When
    a search with a query that the driver can write returns [None], it
    leaves the connection closed or in a failed transaction, and every
    later search on this connection, whatever its query, language and
    limit, fails as well. *)
Theorem failed_search_fails_every_later_search
    (q1 l1 q2 l2 : string) (limit1 limit2 : Z) (w : world) :
  q1 <> ""%string -> adapt_str q1 = None ->
  in_set l1 valid_languages = true ->
  q2 <> ""%string -> in_set l2 valid_languages = true ->
  fst (search_documents (Some the_connection) q1 l1 limit1 w) = Val None ->
  broken (db (snd (search_documents (Some the_connection) q1 l1 limit1 w)))
  /\ fst (search_documents (Some the_connection) q2 l2 limit2
            (snd (search_documents (Some the_connection) q1 l1 limit1 w)))
     = Val None.
Proof.
  intros Hq1 Hn1 Hl1 Hq2 Hl2 Hn.
  destruct (search_documents_spec (Some the_connection) q1 l1 limit1 w)
    as (r & w1 & Es & _ & _ & _ & _ & Hnone & _).
  rewrite Es in Hn |- *. cbn [fst snd] in *. injection Hn as ->.
  destruct (Hnone eq_refl)
    as (_ & [(Hbad & _)|[(Hbad & _)|[(Hbad & _)|Hb]]]);
    [congruence|discriminate| |].
  { unfold adapt_str in Hn1. rewrite Hbad in Hn1. discriminate. }
  split; [exact Hb|].
  destruct (search_documents_spec (Some the_connection) q2 l2 limit2 w1)
    as (r2 & w2 & Es2 & _ & _ & _ & _ & _ & Hbr & _).
  rewrite Es2. cbn. f_equal. apply Hbr; auto. discriminate.
Qed.

(** ** The command line *)















Lemma close_closes (w : world) :
  close w = (Val tt, set_db (set_closed true (db w)) w).
Proof. reflexivity. Qed.


(** ** The connection at the end of the script *)







Lemma get_db_connection_open (w : world) :
  fst (get_db_connection w) = Val (Some the_connection) ->
  closed (db (snd (get_db_connection w))) = false.
Proof.
  destruct w as [[tb [] tx cl fs] l o a ev].
  unfold get_db_connection, try_except, bind, access, on_db, cursor, execute,
    commit, raise.
  cbn.
  destruct (credentials_configured (ev a)); cbn; [|discriminate].
  destruct (connect (ev a)) as [u|e]; cbn.
  2:{ destruct (exc_type e); cbn; discriminate. }
  destruct cl; cbn; [discriminate|].
  destruct fs as [|[[m|m]|] fs]; cbn; try discriminate.
  all: destruct tx; cbn; try discriminate; reflexivity.
Qed.



(** ** The single-language modes *)





(** ** Connecting and setting up *)

(** X15. Connecting never raises and never changes the stored documents.
    When it returns a connection, the credentials were all configured,
    the connection is open and no transaction is left open on it; when
    it returns [None], it has logged exactly one more message, an
    error. *)
Theorem get_db_connection_gives_an_open_idle_connection (w : world) :
  exists r w',
    get_db_connection w = (Val r, w')
    /\ table (db w') = table (db w)
    /\ (r <> None ->
        closed (db w') = false /\ txn (db w') = Idle
        /\ credentials_configured (env_at w (accesses w)) = true
        /\ exists u, connect (env_at w (accesses w)) = Val u)
    /\ (r = None -> exists m, log w' = (log w ++ [(ERROR, m)])%list).
Proof.
  destruct w as [[tb [] tx cl fs] l o a ev].
  unfold get_db_connection, try_except, bind, access, on_db, cursor, execute,
    commit, raise.
  cbn.
  destruct (credentials_configured (ev a)); cbn.
  2:{ eexists. eexists. split; [reflexivity|]. cbn.
      repeat split; try congruence. eauto. }
  destruct (connect (ev a)) as [u|e]; cbn.
  2:{ destruct (exc_type e); cbn; eexists; eexists; (split; [reflexivity|]);
        cbn; repeat split; try congruence; eauto. }
  destruct cl; cbn.
  { eexists. eexists. split; [reflexivity|]. cbn.
    repeat split; try congruence. eauto. }
  destruct fs as [|[[m|m]|] fs]; cbn.
  all: destruct tx; cbn.
  all: eexists; eexists; (split; [reflexivity|]); cbn.
  all: repeat split; try congruence; eauto.
Qed.


(** ** Printing *)

Lemma clean_headline_has_no_line_break (t : text) (c : N) :
  In c (clean_headline t) -> line_breaking c = false.
Proof.
  induction t as [|x t IH]; cbn; [intros []|].
  unfold line_breaking in *.
  destruct (x =? 10)%N eqn:E10; [intros [<-|H]; auto|].
  destruct (x =? 13)%N eqn:E13; [auto|].
  destruct (x =? 9)%N eqn:E9; [intros [<-|H]; auto|].
  intros [<-|H]; [|auto]. now rewrite E10, E13, E9.
Qed.

(** The lines of the results, numbered from [i + 1]. *)
Lemma print_results_stdout (rs : list result) :
  forall i (w : world),
    print_results i rs w
    = (Val tt,
       mkWorld (db w) (log w)
         (stdout w ++
          flat_map (fun kr => [Result_path (fst kr) (res_file_path (snd kr))
                                 (rank (snd kr));
                               Result_context
                                 (clean_headline (headline (snd kr)))])
            (combine (seq (i + 1) (List.length rs)) rs))
         (accesses w) (env_at w)).
Proof.
  induction rs as [|r rs IH]; intros i w.
  - cbn. rewrite app_nil_r. now destruct w.
  - cbn [print_results]. unfold bind, print. cbn [fst snd].
    rewrite IH. cbn. rewrite <- !app_assoc. cbn.
    now rewrite Nat.add_1_r.
Qed.

(** X17. A non-empty result is printed between a header and a footer,
    two lines per row, in the order of the rows and numbered from 1.
    The context printed for a row holds no line feed, carriage return
    or tab. *)
Theorem results_are_printed_in_order_on_one_line_each
    (r : result) (rs : list result) (w : world) :
  stdout (snd (show (Some (r :: rs)) w))
  = (stdout w ++ [Search_Results_header]
     ++ flat_map (fun kr => [Result_path (fst kr) (res_file_path (snd kr))
                               (rank (snd kr));
                             Result_context
                               (clean_headline (headline (snd kr)))])
          (combine (seq 1 (S (List.length rs))) (r :: rs))
     ++ [Search_Results_footer])%list
  /\ forall t c,
       In (Result_context t) (stdout (snd (show (Some (r :: rs)) w))) ->
       ~ In (Result_context t) (stdout w) ->
       In c t -> line_breaking c = false.
Proof.
  assert (Hout : stdout (snd (show (Some (r :: rs)) w))
    = (stdout w ++ [Search_Results_header]
     ++ flat_map (fun kr => [Result_path (fst kr) (res_file_path (snd kr))
                               (rank (snd kr));
                             Result_context
                               (clean_headline (headline (snd kr)))])
          (combine (seq 1 (S (List.length rs))) (r :: rs))
     ++ [Search_Results_footer])%list).
  { unfold show, bind. cbn [print fst snd].
    rewrite print_results_stdout. cbn [fst snd stdout db log accesses env_at].
    cbn [Nat.add List.length]. unfold print. cbn [snd stdout].
    now rewrite <- !app_assoc. }
  split; [exact Hout|].
  intros t c Hin Hnot Hc. rewrite Hout in Hin.
  apply in_app_or in Hin. destruct Hin as [Hin|Hin]; [contradiction|].
  apply in_app_or in Hin. destruct Hin as [[Hin|[]]|Hin]; [discriminate|].
  apply in_app_or in Hin. destruct Hin as [Hin|[Hin|[]]]; [|discriminate].
  apply in_flat_map in Hin. destruct Hin as (kr & _ & [Hin|[Hin|[]]]);
    [discriminate|].
  injection Hin as <-. now apply clean_headline_has_no_line_break in Hc.
Qed.

End WithEngine.

(** ** The properties on the engine of whole words *)

#[local] Existing Instance word_engine.



Lemma failed_search_fails_every_later_search_witness :
  broken (db (snd (search_documents (Some the_connection) "hello" "english"
                     (-1) desk)))
  /\ fst (search_documents (Some the_connection) "hello" "both" 5
            (snd (search_documents (Some the_connection) "hello" "english"
                    (-1) desk)))
     = Val None.
Proof.
  apply (failed_search_fails_every_later_search "hello" "english" "hello"
           "both" (-1) 5 desk).
  - discriminate.
  - reflexivity.
  - reflexivity.
  - discriminate.
  - reflexivity.
  - vm_compute. reflexivity.
Defined.





Lemma get_db_connection_gives_an_open_idle_connection_witness :
  exists r w',
    get_db_connection desk = (Val r, w')
    /\ closed (db w') = false /\ txn (db w') = Idle.
Proof.
  destruct (get_db_connection_gives_an_open_idle_connection desk)
    as (r & w' & Ew & _ & H & _).
  exists r, w'. split; [exact Ew|].
  assert (Hr : r <> None).
  { vm_compute in Ew. injection Ew as <- _. discriminate. }
  destruct (H Hr) as (Hc & Ht & _). split; assumption.
Defined.

Lemma results_are_printed_in_order_on_one_line_each_witness :
  stdout (snd (show (Some [mkResult "docs/a.txt" 2 [0x61; 0x0A; 0x62]%N;
                           mkResult "docs/c.md" 1 [0x63; 0x0D; 0x09]%N])
                 desk))
  = [Search_Results_header;
     Result_path 1 "docs/a.txt" 2; Result_context [0x61; 0x20; 0x62]%N;
     Result_path 2 "docs/c.md" 1; Result_context [0x63; 0x20]%N;
     Search_Results_footer].
Proof.
  exact (proj1 (results_are_printed_in_order_on_one_line_each
                  (mkResult "docs/a.txt" 2 [0x61; 0x0A; 0x62]%N)
                  [mkResult "docs/c.md" 1 [0x63; 0x0D; 0x09]%N] desk)).
Defined.

End SearchLaws.
